(** * The password generator of [2)pass_generator.py]

    A shallow embedding of the utility functions of the password generator
    ([build_charset], [calculate_entropy_bits], [strength_label],
    [secure_choice], [generate_single_password]) and the properties of them
    that the specification states, and of the actions of the form
    ([update_entropy], [on_generate], [copy_selected], [copy_all], the rows
    of [save_to_file]) with the properties the code shows.

    Conventions.
    - A Python [str] used as a sequence of characters is a [list ascii]; a
      character stands for its code point ([N_of_ascii]).  Exception messages
      are [string]s.
    - A Python [int] is a [Z]; a Python [float] is a binary64 [spec_float].
    - A Python [set] is a [gset]; iterating over it enumerates its elements in
      an order the program does not control.
    - The operating system's entropy source is a tape of raw draws which the
      program consumes one after the other. *)

From Stdlib Require Import ZArith QArith Ascii String Lia.
From Stdlib Require Import Floats.SpecFloat.
From stdpp Require Import base decidable list sorting gmap strings.

Local Open Scope Z_scope.
Local Open Scope list_scope.

(** ** Characters and the constants of the module *)

Module Chars.

Definition ord (c : ascii) : N := N_of_ascii c.

Definition chr (n : nat) : ascii := ascii_of_nat n.

Definition chars (s : string) : list ascii := list_ascii_of_string s.

Definition in_range (lo hi : N) (c : ascii) : bool :=
  ((lo <=? ord c) && (ord c <=? hi))%N.

(** [string.ascii_lowercase], [string.ascii_uppercase], [string.digits] *)
Definition ascii_lowercase : list ascii := chars "abcdefghijklmnopqrstuvwxyz".
Definition ascii_uppercase : list ascii := chars "ABCDEFGHIJKLMNOPQRSTUVWXYZ".
Definition digits : list ascii := chars "0123456789".

(** [AMBIGUOUS_CHARS = "O0Il1"] *)
Definition AMBIGUOUS_CHARS : list ascii := chars "O0Il1".

(** [SYMBOLS]: the Python literal escapes the backslash (code point 92) and
    the double quote (code point 34). *)
Definition SYMBOLS : list ascii :=
  chars "!@#$%^&*()-_=+[{]}" ++ [chr 92] ++ chars "|;:'" ++ [chr 34]
    ++ chars ",<.>/?`~".

(** [str.isalnum] on one character with a code point below 256: the ASCII
    letters and digits, and the letters and numeric characters of the
    Latin-1 supplement. *)
Definition isalnum (c : ascii) : bool :=
  in_range 48 57 c || in_range 65 90 c || in_range 97 122 c
  || N.eqb (ord c) 170 || in_range 178 179 c || N.eqb (ord c) 181
  || in_range 185 186 c || in_range 188 190 c
  || in_range 192 214 c || in_range 216 246 c || in_range 248 255 c.

(** [ch in s] for a one-character [ch] *)
Definition char_in (ch : ascii) (s : list ascii) : bool := bool_decide (ch ∈ s).

End Chars.
Export Chars.

(** ** [sorted(..., key=lambda c: (c.isalnum()==False, c))] *)

Module SortKey.

(** The key of a character: a pair of a [bool] and the character. *)
Definition key (c : ascii) : bool * N := (Bool.eqb (isalnum c) false, ord c).

(** Python orders tuples lexicographically, [False] before [True], and
    one-character strings by code point. *)
Definition tuple_le (a b : bool * N) : Prop :=
  match a.1, b.1 with
  | false, true => True
  | true, false => False
  | _, _ => (a.2 <= b.2)%N
  end.

Definition key_le (c d : ascii) : Prop := tuple_le (key c) (key d).

Global Instance tuple_le_dec a b : Decision (tuple_le a b).
Proof.
  unfold tuple_le. destruct a.1, b.1; try apply _; apply N.le_dec.
Defined.

Global Instance key_le_dec c d : Decision (key_le c d).
Proof. unfold key_le. apply _. Defined.

(** Code points ascend strictly. *)
Definition ord_lt (c d : ascii) : Prop := (ord c < ord d)%N.

(** [sorted] is a stable merge sort on the keys. *)
Definition sorted (l : list ascii) : list ascii := merge_sort key_le l.

End SortKey.
Export SortKey.

(** ** [build_charset] *)

(** Iterating over a [set] yields each element once, in an order that depends
    on the hashes of the elements and on the history of the set; for strings
    the hashes differ from one run of the interpreter to the next. *)
Definition set_iteration (iter : gset ascii → list ascii) : Prop :=
  ∀ X, iter X ≡ₚ elements X.

Definition build_charset (iter : gset ascii → list ascii)
    (use_lower use_upper use_digits use_symbols avoid_ambiguous : bool)
    : list ascii :=
  let charset := [] in
  let charset := if use_lower then charset ++ ascii_lowercase else charset in
  let charset := if use_upper then charset ++ ascii_uppercase else charset in
  let charset := if use_digits then charset ++ digits else charset in
  let charset := if use_symbols then charset ++ SYMBOLS else charset in
  let charset :=
    if avoid_ambiguous
    then filter (λ ch, negb (char_in ch AMBIGUOUS_CHARS) = true) charset
    else charset in
  (* Ensure uniqueness *)
  sorted (iter (list_to_set charset)).

(** ** Exceptions *)

Inductive exn :=
  | ValueError (msg : string)
  | IndexError (msg : string)
  | OverflowError (msg : string).

Inductive result (A : Type) :=
  | Ok (a : A)
  | Raise (e : exn).
Arguments Ok {A} a.
Arguments Raise {A} e.

(** ** Numbers: [int], [float] and their comparison *)

Module PyNum.

(** binary64 *)
Definition prec : Z := 53.
Definition emax : Z := 1024.

Inductive number :=
  | PyInt (z : Z)
  | PyFloat (f : spec_float).

(** The exact value of a number: Python compares an [int] with a [float],
    and two [float]s, by their exact values; a NaN compares false with
    everything. *)
Inductive xreal :=
  | XNaN
  | XNegInf
  | XFin (q : Q)
  | XPosInf.

Definition float_value (f : spec_float) : xreal :=
  match f with
  | S754_zero _ => XFin 0
  | S754_infinity s => if s then XNegInf else XPosInf
  | S754_nan => XNaN
  | S754_finite s m e => XFin (inject_Z (cond_Zopp s (Zpos m)) * Qpower 2 e)
  end.

Definition value (x : number) : xreal :=
  match x with
  | PyInt z => XFin (inject_Z z)
  | PyFloat f => float_value f
  end.

Definition xcompare (a b : xreal) : option comparison :=
  match a, b with
  | XNaN, _ | _, XNaN => None
  | XNegInf, XNegInf => Some Eq
  | XNegInf, _ => Some Lt
  | _, XNegInf => Some Gt
  | XPosInf, XPosInf => Some Eq
  | XPosInf, _ => Some Gt
  | _, XPosInf => Some Lt
  | XFin p, XFin q => Some (Qcompare p q)
  end.

(** [a < b], [a <= b], [a >= b] *)
Definition py_lt (a b : number) : bool :=
  match xcompare (value a) (value b) with
  | Some Lt => true
  | _ => false
  end.

Definition py_le (a b : number) : bool :=
  match xcompare (value a) (value b) with
  | Some (Lt | Eq) => true
  | _ => false
  end.

Definition py_ge (a b : number) : bool := py_le b a.

(** The conversion of an [int] to a [float] that [int * float] performs:
    to the nearest, ties to even; an [int] beyond the range raises. *)
Definition int_to_float (z : Z) : result spec_float :=
  match binary_normalize prec emax z 0 false with
  | S754_infinity _ => Raise (OverflowError "int too large to convert to float")
  | f => Ok f
  end.

(** [z * f] for an [int] [z] and a [float] [f] *)
Definition int_mul_float (z : Z) (f : spec_float) : result spec_float :=
  match int_to_float z with
  | Ok x => Ok (SFmul prec emax x f)
  | Raise e => Raise e
  end.

(** Float literals *)
Definition f0_0 : spec_float := S754_zero false.
Definition f1_0 : spec_float := S754_finite false 4503599627370496 (-52).
Definition f10_0 : spec_float := S754_finite false 5629499534213120 (-49).
Definition f28_0 : spec_float := S754_finite false 7881299347898368 (-48).
Definition f80_0 : spec_float := S754_finite false 5629499534213120 (-46).

End PyNum.
Export PyNum.

(** ** [calculate_entropy_bits] *)

Section Entropy.

(** [math.log2] on a positive [int], a function of the C library. *)
Variable log2 : Z → spec_float.

Definition calculate_entropy_bits (charset_len length : Z) : result spec_float :=
  if (charset_len <=? 0) || (length <=? 0) then Ok f0_0
  else int_mul_float length (log2 charset_len).

End Entropy.

(** ** [strength_label] *)

Definition strength_label (bits : number) : string :=
  if py_lt bits (PyInt 28) then "Very Weak"
  else if py_lt bits (PyInt 36) then "Weak"
  else if py_lt bits (PyInt 60) then "Reasonable"
  else if py_lt bits (PyInt 80) then "Strong"
  else "Very Strong".

(** The labels, from the weakest to the strongest, and the place of a label
    among them. *)
Definition labels : list string :=
  ["Very Weak"; "Weak"; "Reasonable"; "Strong"; "Very Strong"].

Definition label_rank (l : string) : option nat :=
  fst <$> list_find (λ x, x = l) labels.

(** ** The secure random source and the monad of the generator *)

Module Secrets.

(** The raw draws the operating system will deliver, in order. *)
Definition entropy : Type := nat → nat.

(** A computation reads draws and returns, or raises. *)
Definition M (A : Type) : Type := entropy → result (A * entropy).

Definition ret {A} (a : A) : M A := λ s, Ok (a, s).

Definition bind {A B} (m : M A) (k : A → M B) : M B :=
  λ s, match m s with
       | Ok (a, s') => k a s'
       | Raise e => Raise e
       end.

Definition raise {A} (e : exn) : M A := λ _, Raise e.

(** [SystemRandom()._randbelow(n)] for [n > 0]: the next draw, brought into
    [range(n)].  Every value of [range(n)] is the result on some tape; how
    likely each one is lies outside the model. *)
Definition randbelow (n : nat) : M nat :=
  λ s, Ok (s 0%nat mod n, λ i, s (S i))%nat.

End Secrets.
Export Secrets.

Global Instance M_ret : MRet M := @ret.
Global Instance M_bind : MBind M := λ A B k m, bind m k.

(** [for x in l: acc = body(acc, x)] *)
Fixpoint for_each {A S} (l : list A) (body : S → A → M S) (acc : S) : M S :=
  match l with
  | [] => mret acc
  | x :: l' => acc' ← body acc x; for_each l' body acc'
  end.

(** [[f(x) for x in l]] *)
Fixpoint comprehension {A B} (f : A → M B) (l : list A) : M (list B) :=
  match l with
  | [] => mret []
  | x :: l' => y ← f x; ys ← comprehension f l'; mret (y :: ys)
  end.

(** [range(n)] and [range(a, b)] *)
Definition range (n : Z) : list nat := seq 0 (Z.to_nat n).
Definition range2 (a b : nat) : list nat := seq a (b - a).

(** [secrets.choice(seq)], which [secure_choice] wraps *)
Definition choice {A} (sq : list A) : M A :=
  if bool_decide (length sq = 0%nat)
  then raise (IndexError "Cannot choose from an empty sequence")
  else
    i ← randbelow (length sq);
    match sq !! i with
    | Some x => mret x
    | None => raise (IndexError "list index out of range")
    end.

Definition secure_choice {A} (sq : list A) : M A := choice sq.

(** [x[i], x[j] = x[j], x[i]] *)
Definition swap {A} (x : list A) (i j : nat) : M (list A) :=
  match x !! j, x !! i with
  | Some xj, Some xi => mret (<[j:=xi]> (<[i:=xj]> x))
  | _, _ => raise (IndexError "list index out of range")
  end.

(** [secrets.SystemRandom().shuffle(x)]: for [i] from [len(x) - 1] down to
    [1], exchange [x[i]] with [x[j]] for a [j] drawn below [i + 1]. *)
Definition shuffle {A} (x : list A) : M (list A) :=
  for_each (reverse (range2 1 (length x)))
    (λ x i, j ← randbelow (i + 1); swap x i j) x.

(** ** [generate_single_password] *)

Definition empty_charset_msg : string := "Character set is empty.".
Definition invalid_length_msg : string := "Length must be at least 1.".
Definition length_too_short_msg : string :=
  "Length is too short to include at least one from each required class.".

(** The class list of the caller: [None] or a list of [(name, chars)]. *)
Definition class_list : Type := option (list (string * list ascii)).

(** The truth value of [classes] *)
Definition truthy (classes : class_list) : bool :=
  match classes with
  | Some (_ :: _) => true
  | _ => false
  end.

Definition class_entries (classes : class_list) : list (string * list ascii) :=
  default [] classes.

(** [[cls for cls in classes if cls[1]]] *)
Definition required_of (classes : class_list) : list (string * list ascii) :=
  filter (λ cls, cls.2 ≠ []) (class_entries classes).

Definition generate_single_password
    (length : Z) (charset : list ascii) (require_each : bool)
    (classes : class_list) : M (list ascii) :=
  if bool_decide (charset = []) then raise (ValueError empty_charset_msg)
  else if length <? 1 then raise (ValueError invalid_length_msg)
  else if require_each && truthy classes then
    let required_classes := required_of classes in
    if length <? Z.of_nat (List.length required_classes)
    then raise (ValueError length_too_short_msg)
    else
      pw_chars ← comprehension (λ cls, secure_choice cls.2) required_classes;
      let remaining := length - Z.of_nat (List.length pw_chars) in
      pw_chars ← for_each (range remaining)
                   (λ pw_chars _, c ← secure_choice charset; mret (pw_chars ++ [c]))
                   pw_chars;
      pw_chars ← shuffle pw_chars;
      mret pw_chars
  else
    comprehension (λ _, secure_choice charset) (range length).

(** The three failures of the generator, by the names of the specification *)
Definition EmptyAlphabetError : exn := ValueError empty_charset_msg.
Definition InvalidLengthError : exn := ValueError invalid_length_msg.
Definition LengthTooShortError : exn := ValueError length_too_short_msg.

(** The outcome of a run, without the remaining entropy *)
Definition outcome {A} (r : result (A * entropy)) : result A :=
  match r with
  | Ok (a, _) => Ok a
  | Raise e => Raise e
  end.

(** ** Strings of the display: [str(n)], [f"{i:02d}"], [in], [split], [strip], [join] *)

Module Text.

Fixpoint uint_chars (d : Decimal.uint) : list ascii :=
  match d with
  | Decimal.Nil => []
  | Decimal.D0 d => "0"%char :: uint_chars d
  | Decimal.D1 d => "1"%char :: uint_chars d
  | Decimal.D2 d => "2"%char :: uint_chars d
  | Decimal.D3 d => "3"%char :: uint_chars d
  | Decimal.D4 d => "4"%char :: uint_chars d
  | Decimal.D5 d => "5"%char :: uint_chars d
  | Decimal.D6 d => "6"%char :: uint_chars d
  | Decimal.D7 d => "7"%char :: uint_chars d
  | Decimal.D8 d => "8"%char :: uint_chars d
  | Decimal.D9 d => "9"%char :: uint_chars d
  end.

(** [str(n)] for a natural number *)
Definition str_nat (n : nat) : list ascii := uint_chars (Nat.to_uint n).

(** [f"{i:02d}"]: the decimal digits, padded with zeros on the left to a
    width of at least 2 *)
Definition format_02d (i : nat) : list ascii :=
  let ds := str_nat i in
  replicate (2 - List.length ds) "0"%char ++ ds.

(** [s.startswith(p)] *)
Fixpoint starts_with (p s : list ascii) : bool :=
  match p, s with
  | [], _ => true
  | _ :: _, [] => false
  | a :: p', b :: s' => bool_decide (a = b) && starts_with p' s'
  end.

(** The text before and the text after the first occurrence of [sep] *)
Fixpoint partition_first (sep s : list ascii) : option (list ascii * list ascii) :=
  if starts_with sep s then Some ([], drop (List.length sep) s)
  else match s with
       | [] => None
       | c :: s' => prod_map (cons c) id <$> partition_first sep s'
       end.

(** [sep in s] *)
Definition contains (sep s : list ascii) : bool :=
  bool_decide (is_Some (partition_first sep s)).

(** [s.split(sep, 1)] for a non-empty [sep] *)
Definition split_1 (sep s : list ascii) : list (list ascii) :=
  match partition_first sep s with
  | Some (before, after) => [before; after]
  | None => [s]
  end.

(** [s.lstrip(".")] and [s.strip(".")] *)
Fixpoint lstrip_dots (s : list ascii) : list ascii :=
  match s with
  | [] => []
  | c :: s' => if bool_decide (c = "."%char) then lstrip_dots s' else s
  end.

Definition strip_dots (s : list ascii) : list ascii :=
  reverse (lstrip_dots (reverse (lstrip_dots s))).

(** [sep.join(l)] *)
Fixpoint join (sep : list ascii) (l : list (list ascii)) : list ascii :=
  match l with
  | [] => []
  | [x] => x
  | x :: l' => x ++ sep ++ join sep l'
  end.

Definition newline : ascii := chr 10.

End Text.
Export Text.

(** ** The application: the variables of the form and what it displays *)

Module Gui.

(** The Tk variables, read with [.get()]; the two numbers are taken after
    [int(...)] has succeeded. *)
Record settings := {
  length_var : Z;
  count_var : Z;
  use_lower : bool;
  use_upper : bool;
  use_digits : bool;
  use_symbols : bool;
  require_each : bool;
  avoid_ambiguous : bool;
}.

(** The values that [update_entropy] puts into the text of the entropy label,
    ["Entropy: {human_readable_bits(bits)} — {strength_label(bits)} (Charset
    size: {len(charset)})"]. *)
Record entropy_text := {
  shown_bits : spec_float;
  shown_label : string;
  shown_size : nat;
}.

(** What the window shows and keeps: the lines of the list box, the entropy
    label (nothing before the first update), [last_charset], and the
    clipboard. *)
Record display := {
  pw_listbox : list (list ascii);
  entropy_label : option entropy_text;
  last_charset : list ascii;
  clipboard : list ascii;
}.

(** [str(e)] *)
Definition str_exn (e : exn) : string :=
  match e with
  | ValueError msg | IndexError msg | OverflowError msg => msg
  end.

(** [l[i]] on a Python list *)
Definition index {A} (l : list A) (i : nat) : result A :=
  match l !! i with
  | Some x => Ok x
  | None => Raise (IndexError "list index out of range")
  end.

Section App.

(** The iteration order of sets and [math.log2] *)
Variable iter : gset ascii → list ascii.
Variable log2 : Z → spec_float.

Definition charset_of (cfg : settings) : list ascii :=
  build_charset iter (use_lower cfg) (use_upper cfg) (use_digits cfg)
    (use_symbols cfg) (avoid_ambiguous cfg).

Definition update_entropy (cfg : settings) (d : display) : result display :=
  let charset := charset_of cfg in
  let length := Z.max 0 (length_var cfg) in
  match calculate_entropy_bits log2 (Z.of_nat (List.length charset)) length with
  | Raise e => Raise e
  | Ok bits =>
      Ok {| pw_listbox := pw_listbox d;
            entropy_label :=
              Some {| shown_bits := bits;
                      shown_label := strength_label (PyFloat bits);
                      shown_size := List.length charset |};
            last_charset := charset;
            clipboard := clipboard d |}
  end.

(** The pool of one class in [on_generate] *)
Definition class_pool (cfg : settings) (chars : list ascii) : list ascii :=
  if avoid_ambiguous cfg
  then filter (λ c, negb (char_in c AMBIGUOUS_CHARS) = true) chars
  else chars.

(** The list [classes] that [on_generate] builds *)
Definition classes_of (cfg : settings) : list (string * list ascii) :=
  let classes := [] in
  let classes :=
    if use_lower cfg
    then classes ++ [("lower"%string, class_pool cfg ascii_lowercase)] else classes in
  let classes :=
    if use_upper cfg
    then classes ++ [("upper"%string, class_pool cfg ascii_uppercase)] else classes in
  let classes :=
    if use_digits cfg
    then classes ++ [("digits"%string, class_pool cfg digits)] else classes in
  let classes :=
    if use_symbols cfg
    then classes ++ [("symbols"%string, class_pool cfg SYMBOLS)] else classes in
  classes.

(** The part of [on_generate] up to the end of the generation loop *)
Definition generate_batch (cfg : settings) : M (list (list ascii)) :=
  let length := length_var cfg in
  let count := count_var cfg in
  if (length <? 4) || (length >? 256)
  then raise (ValueError "Length must be between 4 and 256.")
  else if (count <? 1) || (count >? 1000)
  then raise (ValueError "Count must be between 1 and 1000.")
  else
    let charset := charset_of cfg in
    if bool_decide (charset = [])
    then raise (ValueError
                  "No characters selected for password generation. Enable at least one class.")
    else
      let classes := classes_of cfg in
      for_each (range count)
        (λ generated _,
           pw ← generate_single_password length charset (require_each cfg) (Some classes);
           mret (generated ++ [pw]))
        [].

(** [f"{i:02d}. {pw}"] *)
Definition display_line (i : nat) (pw : list ascii) : list ascii :=
  format_02d i ++ chars ". " ++ pw.

(** The lines inserted for [enumerate(generated, start=1)] *)
Definition display_lines (generated : list (list ascii)) : list (list ascii) :=
  imap (λ k pw, display_line (k + 1) pw) generated.

(** [on_generate]: the new display, the text of the error box if one is
    shown, and the entropy left. *)
Definition on_generate (cfg : settings) (d : display) (s : entropy)
    : display * option string * entropy :=
  match generate_batch cfg s with
  | Raise e => (d, Some (str_exn e), s)
  | Ok (generated, s') =>
      let d := {| pw_listbox := display_lines generated;
                  entropy_label := entropy_label d;
                  last_charset := last_charset d;
                  clipboard := clipboard d |} in
      match update_entropy cfg d with
      | Ok d' => (d', None, s')
      | Raise e => (d, Some (str_exn e), s')
      end
  end.

End App.

(** [item.split(". ", 1)[1] if ". " in item else item] *)
Definition strip_index (item : list ascii) : result (list ascii) :=
  if contains (chars ". ") item then index (split_1 (chars ". ") item) 1
  else Ok item.

(** [[strip_index(item) for item in items]] *)
Fixpoint strip_all (items : list (list ascii)) : result (list (list ascii)) :=
  match items with
  | [] => Ok []
  | item :: items' =>
      match strip_index item with
      | Raise e => Raise e
      | Ok pw =>
          match strip_all items' with
          | Raise e => Raise e
          | Ok pws => Ok (pw :: pws)
          end
      end
  end.

(** [pw_listbox.get(i)]: the line, or the empty string where there is none *)
Definition listbox_get (lines : list (list ascii)) (i : nat) : list ascii :=
  default [] (lines !! i).

(** [copy_selected], for the selection [sel] that [curselection()] returns:
    the new display and the text of the information box. *)
Definition copy_selected (sel : list nat) (d : display) : result (display * string) :=
  match sel with
  | [] => Ok (d, "No password selected. Select one from the list."%string)
  | i :: _ =>
      let item := listbox_get (pw_listbox d) i in
      match strip_index item with
      | Raise e => Raise e
      | Ok pw =>
          Ok ({| pw_listbox := pw_listbox d;
                 entropy_label := entropy_label d;
                 last_charset := last_charset d;
                 clipboard := pw |},
              "Selected password copied to clipboard."%string)
      end
  end.

(** [copy_all]: the new display and the text of the information box *)
Definition copy_all (d : display) : result (display * list ascii) :=
  let items := pw_listbox d in
  match items with
  | [] => Ok (d, chars "No passwords to copy.")
  | _ =>
      match strip_all items with
      | Raise e => Raise e
      | Ok pws =>
          Ok ({| pw_listbox := pw_listbox d;
                 entropy_label := entropy_label d;
                 last_charset := last_charset d;
                 clipboard := join [newline] pws |},
              str_nat (List.length items) ++ chars " passwords copied to clipboard.")
      end
  end.

(** The rows that [save_to_file] hands to the CSV writer, the header first *)
Definition csv_row (row : list ascii) : result (list (list ascii)) :=
  if contains (chars ". ") row
  then match split_1 (chars ". ") row with
       | [idx; pw] => Ok [strip_dots idx; pw]
       | _ => Raise (ValueError "wrong number of values to unpack")
       end
  else Ok [strip_dots []; row].

Fixpoint csv_rows_of (items : list (list ascii)) : result (list (list (list ascii))) :=
  match items with
  | [] => Ok []
  | row :: items' =>
      match csv_row row with
      | Raise e => Raise e
      | Ok r =>
          match csv_rows_of items' with
          | Raise e => Raise e
          | Ok rs => Ok (r :: rs)
          end
      end
  end.

Definition csv_rows (items : list (list ascii)) : result (list (list (list ascii))) :=
  match csv_rows_of items with
  | Raise e => Raise e
  | Ok rs => Ok ([chars "index"; chars "password"] :: rs)
  end.

End Gui.

(** What one password of the generator is, when the pools are part of the
    alphabet *)
Definition sound_password (length : Z) (charset : list ascii) (require_each : bool)
    (classes : list (string * list ascii)) (pw : list ascii) : Prop :=
  Z.of_nat (List.length pw) = length
  ∧ (∀ c, c ∈ pw → c ∈ charset)
  ∧ (require_each = true →
     ∀ cls, cls ∈ classes → cls.2 ≠ [] → ∃ c, c ∈ cls.2 ∧ c ∈ pw).

(** * Properties *)

(** ** Runs that return *)

(** [returns m P]: on every entropy tape the computation [m] returns, and
    its value satisfies [P]. *)
Definition returns {A} (m : M A) (P : A → Prop) : Prop :=
  ∀ s, ∃ a s', m s = Ok (a, s') ∧ P a.

Section Returns.
Context {A B : Type}.

Lemma returns_ret (a : A) (P : A → Prop) : P a → returns (mret a) P.
Proof. intros Ha s. by exists a, s. Qed.

Lemma returns_bind (m : M A) (k : A → M B) (P : A → Prop) (Q : B → Prop) :
  returns m P → (∀ a, P a → returns (k a) Q) → returns (m ≫= k) Q.
Proof.
  intros Hm Hk s. destruct (Hm s) as (a & s' & Hrun & Ha).
  destruct (Hk a Ha s') as (b & s'' & Hrun' & Hb).
  exists b, s''. split; [|done].
  unfold mbind, M_bind, bind. by rewrite Hrun.
Qed.

Lemma returns_weaken (m : M A) (P Q : A → Prop) :
  returns m P → (∀ a, P a → Q a) → returns m Q.
Proof.
  intros Hm HPQ s. destruct (Hm s) as (a & s' & Hrun & Ha). eauto.
Qed.

Lemma returns_outcome (m : M A) (P : A → Prop) s :
  returns m P → ∃ a, outcome (m s) = Ok a ∧ P a.
Proof.
  intros Hm. destruct (Hm s) as (a & s' & -> & Ha). by exists a.
Qed.
End Returns.

Lemma returns_randbelow n : (0 < n)%nat → returns (randbelow n) (λ i, (i < n)%nat).
Proof.
  intros Hn s. eexists _, _. split; [done|]. apply Nat.mod_upper_bound. lia.
Qed.

Lemma returns_choice {A} (sq : list A) :
  sq ≠ [] → returns (choice sq) (λ x, x ∈ sq).
Proof.
  intros Hne. unfold choice. rewrite bool_decide_false.
  2:{ by destruct sq. }
  eapply returns_bind.
  - apply returns_randbelow. destruct sq; simpl; [done | lia].
  - intros i Hi. simpl in Hi. destruct (lookup_lt_is_Some_2 sq i Hi) as [x Hx].
    rewrite Hx. apply returns_ret. by eapply list_elem_of_lookup_2.
Qed.

Lemma returns_comprehension {A B} (f : A → M B) (P : A → B → Prop) l :
  (∀ x, x ∈ l → returns (f x) (P x)) →
  returns (comprehension f l) (Forall2 P l).
Proof.
  induction l as [|x l IH]; intros Hf; simpl.
  - apply returns_ret. constructor.
  - eapply returns_bind; [apply Hf; left|]. intros y Hy.
    eapply returns_bind; [apply IH; intros; apply Hf; by right|].
    intros ys Hys. apply returns_ret. by constructor.
Qed.

(** A loop keeps an invariant that every iteration keeps. *)
Lemma returns_for_each {A S} (body : S → A → M S) (I : S → Prop) l acc :
  I acc →
  (∀ acc x, x ∈ l → I acc → returns (body acc x) I) →
  returns (for_each l body acc) I.
Proof.
  revert acc. induction l as [|x l IH]; intros acc Hacc Hbody; simpl.
  - by apply returns_ret.
  - eapply returns_bind; [apply Hbody; [left|done]|].
    intros acc' Hacc'. apply IH; [done|]. intros; apply Hbody; [by right|done].
Qed.

(** ** The shuffle permutes *)

Lemma returns_swap {A} (x : list A) i j :
  (i < length x)%nat → (j < length x)%nat →
  returns (swap x i j) (λ y, y ≡ₚ x).
Proof.
  intros Hi Hj. unfold swap.
  destruct (lookup_lt_is_Some_2 x i Hi) as [xi Hxi].
  destruct (lookup_lt_is_Some_2 x j Hj) as [xj Hxj].
  rewrite Hxi, Hxj. apply returns_ret. by apply Permutation_insert_swap.
Qed.

Lemma returns_shuffle {A} (x : list A) : returns (shuffle x) (λ y, y ≡ₚ x).
Proof.
  unfold shuffle. apply returns_for_each; [done|].
  intros acc i Hi Hacc.
  apply elem_of_reverse, elem_of_seq in Hi.
  eapply returns_bind; [apply (returns_randbelow (i + 1)); lia|].
  intros j Hj. simpl in Hj.
  assert (length acc = length x) as Hlen by by rewrite Hacc.
  eapply returns_weaken; [apply returns_swap; lia|].
  intros y Hy. by rewrite Hy.
Qed.

(** ** The generator *)

Section Generator.
Implicit Types (length : Z) (charset pw : list ascii) (classes : class_list).

Lemma elem_of_required_of classes cls :
  cls ∈ required_of classes ↔ cls.2 ≠ [] ∧ cls ∈ class_entries classes.
Proof. unfold required_of. by rewrite list_elem_of_filter. Qed.

(** The loop that fills the password up appends one character of the
    alphabet per iteration. *)
Lemma returns_fill_up {A} charset (l : list A) pw :
  charset ≠ [] →
  returns
    (for_each l (λ pw_chars _, c ← secure_choice charset; mret (pw_chars ++ [c])) pw)
    (λ r, ∃ extra, r = pw ++ extra ∧ List.length extra = List.length l
                   ∧ ∀ c, c ∈ extra → c ∈ charset).
Proof.
  intros Hne. revert pw. induction l as [|x l IH]; intros pw; simpl.
  - apply returns_ret. exists []. rewrite app_nil_r.
    split_and!; [done..|]. intros c Hc. by apply elem_of_nil in Hc.
  - eapply returns_bind.
    { eapply returns_bind; [by apply returns_choice|].
      intros c Hc. apply (returns_ret _ (λ r, ∃ c, r = pw ++ [c] ∧ c ∈ charset)).
      by exists c. }
    intros acc (c & -> & Hc). eapply returns_weaken; [apply IH|].
    intros r (extra & -> & Hlen & Hextra). exists (c :: extra).
    rewrite <- app_assoc. simpl. split_and!; [done|by rewrite Hlen|].
    intros d [->|Hd]%elem_of_cons; auto.
Qed.

(** The three guards, in the order in which the function tests them. *)
Lemma generate_empty_charset length require_each classes s :
  generate_single_password length [] require_each classes s
  = Raise EmptyAlphabetError.
Proof. done. Qed.

Lemma generate_invalid_length length charset require_each classes s :
  charset ≠ [] → length < 1 →
  generate_single_password length charset require_each classes s
  = Raise InvalidLengthError.
Proof.
  intros Hne Hlen. unfold generate_single_password.
  rewrite bool_decide_false by done.
  by destruct (Z.ltb_spec length 1); [|lia].
Qed.

Lemma generate_length_too_short length charset classes s :
  charset ≠ [] → 1 ≤ length → truthy classes = true →
  length < Z.of_nat (List.length (required_of classes)) →
  generate_single_password length charset true classes s
  = Raise LengthTooShortError.
Proof.
  intros Hne Hlen Hcls Hshort. unfold generate_single_password.
  rewrite bool_decide_false by done.
  destruct (Z.ltb_spec length 1); [lia|]. rewrite Hcls. simpl.
  by destruct (Z.ltb_spec length (Z.of_nat (List.length (required_of classes)))); [|lia].
Qed.

(** Past the guards the function returns; the password is the alphabet
    draws, preceded in the constrained path by one draw per required class
    and then permuted. *)
Lemma generate_returns length charset require_each classes :
  charset ≠ [] → 1 ≤ length →
  (require_each && truthy classes = true →
   Z.of_nat (List.length (required_of classes)) ≤ length) →
  returns (generate_single_password length charset require_each classes)
    (λ pw, ∃ firsts extra,
       pw ≡ₚ firsts ++ extra
       ∧ Z.of_nat (List.length pw) = length
       ∧ (∀ c, c ∈ extra → c ∈ charset)
       ∧ if require_each && truthy classes
         then Forall2 (λ cls c, c ∈ cls.2) (required_of classes) firsts
         else firsts = []).
Proof.
  intros Hne Hlen Hreq. unfold generate_single_password.
  rewrite bool_decide_false by done.
  destruct (Z.ltb_spec length 1); [lia|].
  destruct (require_each && truthy classes) eqn:Hpath.
  - specialize (Hreq eq_refl).
    destruct (Z.ltb_spec length (Z.of_nat (List.length (required_of classes)))); [lia|].
    eapply returns_bind.
    { apply (returns_comprehension _ (λ cls c, c ∈ cls.2)).
      intros cls [Hpool _]%elem_of_required_of. by apply returns_choice. }
    intros firsts Hfirsts. simpl.
    pose proof (Forall2_length _ _ _ Hfirsts) as Hflen.
    eapply returns_bind; [by apply returns_fill_up|].
    intros acc (extra & -> & Hextra_len & Hextra). simpl.
    eapply returns_bind; [apply returns_shuffle|].
    intros pw Hpw. apply returns_ret. exists firsts, extra.
    split_and!; [done| |done|done].
    rewrite Hpw, length_app, Hextra_len. unfold range.
    rewrite length_seq. lia.
  - eapply returns_weaken.
    { apply (returns_comprehension _ (λ _ c, c ∈ charset)).
      intros. by apply returns_choice. }
    intros pw Hpw. exists [], pw. simpl. split_and!; [done| | |done].
    + apply Forall2_length in Hpw. unfold range in Hpw.
      rewrite length_seq in Hpw. lia.
    + intros c Hc. apply list_elem_of_lookup in Hc as [i Hi].
      destruct (Forall2_lookup_r _ _ _ _ _ Hpw Hi) as (? & _ & ?). done.
Qed.

End Generator.

(** ** Claims about [generate_single_password] *)

(** C1. For a non-empty alphabet and a length of at least 1 (and, when
    [require_each] is true, every supplied class pool a non-empty subset of the
    alphabet and the length at least the number of non-empty pools),
    [generate_single_password] returns a string of exactly [length]
    characters, each of them a member of the alphabet. *)
Theorem generate_single_password_length_and_members
    (length : Z) (charset : list ascii) (require_each : bool)
    (classes : class_list) (s : entropy) :
  charset ≠ [] →
  1 ≤ length →
  (require_each = true →
   (∀ cls, cls ∈ class_entries classes → cls.2 ≠ [] ∧ cls.2 ⊆ charset)
   ∧ Z.of_nat (List.length (required_of classes)) ≤ length) →
  ∃ pw, outcome (generate_single_password length charset require_each classes s) = Ok pw
        ∧ Z.of_nat (List.length pw) = length
        ∧ ∀ c, c ∈ pw → c ∈ charset.
Proof.
  intros Hne Hlen Hreq.
  destruct (returns_outcome _ _ s
              (generate_returns length charset require_each classes Hne Hlen
                 ltac:(intros [-> _]%andb_true_iff; by apply Hreq)))
    as (pw & Hrun & firsts & extra & Hperm & Hpwlen & Hextra & Hfirsts).
  exists pw. split_and!; [done..|].
  intros c Hc. rewrite Hperm in Hc. apply elem_of_app in Hc as [Hc|Hc]; [|auto].
  destruct (require_each && truthy classes) eqn:Hpath.
  - apply andb_true_iff in Hpath as [-> _]. destruct (Hreq eq_refl) as [Hpools _].
    apply list_elem_of_lookup in Hc as [i Hi].
    destruct (Forall2_lookup_r _ _ _ _ _ Hfirsts Hi) as (cls & Hcls & Hin).
    apply list_elem_of_lookup_2, elem_of_required_of in Hcls as [_ Hcls].
    by apply (Hpools cls Hcls).
  - subst firsts. by apply elem_of_nil in Hc.
Qed.

Lemma generate_single_password_length_and_members_witness :
  ∃ pw, outcome (generate_single_password 3 (chars "ab1") true
                   (Some [("lower"%string, chars "ab"); ("digits"%string, chars "1")])
                   (λ i, i)) = Ok pw
        ∧ Z.of_nat (List.length pw) = 3
        ∧ ∀ c, c ∈ pw → c ∈ chars "ab1".
Proof.
  apply generate_single_password_length_and_members.
  - done.
  - lia.
  - intros _. split; [|simpl; lia].
    apply Forall_forall. compute_done.
Defined.

(** C2. With [require_each] true and a non-empty list of classes, if the
    length is at least the number of classes with a non-empty pool, the
    returned password contains at least one character of every class whose
    pool is not empty; and past the two input guards a password is
    returned. *)
Theorem generate_single_password_covers_classes
    (length : Z) (charset : list ascii) (classes : class_list) (s : entropy) :
  truthy classes = true →
  Z.of_nat (List.length (required_of classes)) ≤ length →
  (∀ pw, outcome (generate_single_password length charset true classes s) = Ok pw →
         ∀ cls, cls ∈ class_entries classes → cls.2 ≠ [] →
                ∃ c, c ∈ cls.2 ∧ c ∈ pw)
  ∧ (charset ≠ [] → 1 ≤ length →
     ∃ pw, outcome (generate_single_password length charset true classes s) = Ok pw).
Proof.
  intros Hcls Hreq.
  destruct (decide (charset = [])) as [->|Hne].
  { split; [|done]. intros pw Hrun. by rewrite generate_empty_charset in Hrun. }
  destruct (Z.lt_ge_cases length 1) as [Hlt|Hlen].
  { split; [|lia]. intros pw Hrun.
    by rewrite generate_invalid_length in Hrun. }
  destruct (returns_outcome _ _ s
              (generate_returns length charset true classes Hne Hlen (λ _, Hreq)))
    as (pw & Hrun & firsts & extra & Hperm & _ & _ & Hfirsts).
  split; [|eauto]. intros pw' Hrun' cls Hin Hpool.
  rewrite Hrun in Hrun'. injection Hrun' as <-.
  simpl in Hfirsts. rewrite Hcls in Hfirsts.
  assert (cls ∈ required_of classes) as Hr by by apply elem_of_required_of.
  apply list_elem_of_lookup in Hr as [i Hi].
  destruct (Forall2_lookup_l _ _ _ _ _ Hfirsts Hi) as (c & Hc & Hcin).
  exists c. split; [done|]. rewrite Hperm. apply elem_of_app. left.
  by eapply list_elem_of_lookup_2.
Qed.

Lemma generate_single_password_covers_classes_witness :
  (∀ pw, outcome (generate_single_password 3 (chars "ab1") true
                    (Some [("lower"%string, chars "ab"); ("digits"%string, chars "1")])
                    (λ i, i)) = Ok pw →
         ∀ cls, cls ∈ [("lower"%string, chars "ab"); ("digits"%string, chars "1")] →
                cls.2 ≠ [] → ∃ c, c ∈ cls.2 ∧ c ∈ pw)
  ∧ (chars "ab1" ≠ [] → 1 ≤ 3 →
     ∃ pw, outcome (generate_single_password 3 (chars "ab1") true
                      (Some [("lower"%string, chars "ab"); ("digits"%string, chars "1")])
                      (λ i, i)) = Ok pw).
Proof.
  apply (generate_single_password_covers_classes 3 (chars "ab1")
           (Some [("lower"%string, chars "ab"); ("digits"%string, chars "1")]) (λ i, i)).
  - reflexivity.
  - simpl. lia.
Defined.

(** C3, as stated, fails.  With an empty alphabet and the length 0, which is
    below 1, the call fails with the empty-alphabet error and not with the
    length error; with a non-empty alphabet, [require_each] true, one class
    with a non-empty pool and the length 0, which is below the number of such
    classes, it fails with the length error and not with the too-short
    error. *)
Lemma generate_single_password_length_error_counterexample :
  (0 < 1
   ∧ outcome (generate_single_password 0 [] false None (λ _, 0%nat))
     = Raise EmptyAlphabetError
   ∧ outcome (generate_single_password 0 [] false None (λ _, 0%nat))
     ≠ Raise InvalidLengthError)
  ∧ (truthy (Some [("lower"%string, chars "a")]) = true
     ∧ 0 < Z.of_nat (List.length (required_of (Some [("lower"%string, chars "a")])))
     ∧ outcome (generate_single_password 0 (chars "a") true
                  (Some [("lower"%string, chars "a")]) (λ _, 0%nat))
       = Raise InvalidLengthError
     ∧ outcome (generate_single_password 0 (chars "a") true
                  (Some [("lower"%string, chars "a")]) (λ _, 0%nat))
       ≠ Raise LengthTooShortError).
Proof. split; split_and!; try done; simpl; lia. Qed.

(** C3, amended. [generate_single_password] fails with [EmptyAlphabetError]
    whenever the alphabet is empty; with [InvalidLengthError] whenever the
    alphabet is not empty and the length is below 1; and, when [require_each]
    is true with a non-empty list of classes, with [LengthTooShortError]
    whenever the alphabet is not empty, the length is at least 1 and the
    length is below the number of classes with a non-empty pool.  Whenever
    one of the three conditions of failure holds, no password is produced. *)
Theorem generate_single_password_failures
    (length : Z) (charset : list ascii) (require_each : bool)
    (classes : class_list) (s : entropy) :
  let run := generate_single_password length charset require_each classes s in
  (charset = [] → run = Raise EmptyAlphabetError)
  ∧ (charset ≠ [] → length < 1 → run = Raise InvalidLengthError)
  ∧ (charset ≠ [] → 1 ≤ length → require_each = true → truthy classes = true →
     length < Z.of_nat (List.length (required_of classes)) →
     run = Raise LengthTooShortError)
  ∧ (charset = [] ∨ length < 1
     ∨ (require_each = true ∧ truthy classes = true
        ∧ length < Z.of_nat (List.length (required_of classes))) →
     ∃ e, run = Raise e ∧ ∀ pw, outcome run ≠ Ok pw).
Proof.
  intros run. subst run.
  assert (∀ e, generate_single_password length charset require_each classes s = Raise e →
               ∃ e', generate_single_password length charset require_each classes s = Raise e'
                     ∧ ∀ pw, outcome (generate_single_password length charset require_each classes s)
                             ≠ Ok pw) as Hfail.
  { intros e He. exists e. split; [done|]. by rewrite He. }
  split_and!.
  - intros ->. apply generate_empty_charset.
  - apply generate_invalid_length.
  - intros Hne Hlen -> Hcls Hshort. by apply generate_length_too_short.
  - destruct (decide (charset = [])) as [->|Hne].
    { intros _. eapply Hfail, generate_empty_charset. }
    destruct (Z.lt_ge_cases length 1) as [Hlt|Hlen].
    { intros _. by eapply Hfail, generate_invalid_length. }
    intros [?|[?|(-> & Hcls & Hshort)]]; [done|lia|].
    by eapply Hfail, generate_length_too_short.
Qed.

Lemma generate_single_password_failures_witness :
  ∃ e, generate_single_password 1 (chars "ab1") true
         (Some [("lower"%string, chars "ab"); ("digits"%string, chars "1")]) (λ i, i)
       = Raise e
       ∧ ∀ pw, outcome (generate_single_password 1 (chars "ab1") true
                          (Some [("lower"%string, chars "ab"); ("digits"%string, chars "1")])
                          (λ i, i)) ≠ Ok pw.
Proof.
  apply (generate_single_password_failures 1 (chars "ab1") true
           (Some [("lower"%string, chars "ab"); ("digits"%string, chars "1")]) (λ i, i)).
  right. right. split_and!; [reflexivity|reflexivity|simpl; lia].
Defined.

(** C9. The preconditions are checked in a fixed order, the alphabet before
    the length before the number of required classes: with an empty alphabet
    the empty-alphabet error is raised whatever the length and the classes
    are (so also for the length 0), and with a non-empty alphabet and a length
    below 1 the length error is raised whatever the classes are.  The three
    errors are distinct. *)
Theorem generate_single_password_check_order
    (length : Z) (charset : list ascii) (require_each : bool)
    (classes : class_list) (s : entropy) :
  outcome (generate_single_password length [] require_each classes s)
  = Raise EmptyAlphabetError
  ∧ outcome (generate_single_password 0 [] require_each classes s)
    = Raise EmptyAlphabetError
  ∧ (charset ≠ [] → length < 1 →
     outcome (generate_single_password length charset require_each classes s)
     = Raise InvalidLengthError)
  ∧ EmptyAlphabetError ≠ InvalidLengthError
  ∧ EmptyAlphabetError ≠ LengthTooShortError
  ∧ InvalidLengthError ≠ LengthTooShortError.
Proof.
  split_and!; try discriminate.
  - by rewrite generate_empty_charset.
  - by rewrite generate_empty_charset.
  - intros Hne Hlen. by rewrite generate_invalid_length.
Qed.

Lemma generate_single_password_check_order_witness :
  outcome (generate_single_password 0 (chars "ab1") true
             (Some [("lower"%string, chars "ab"); ("digits"%string, chars "1")])
             (λ i, i))
  = Raise InvalidLengthError.
Proof.
  apply (generate_single_password_check_order 0 (chars "ab1") true
           (Some [("lower"%string, chars "ab"); ("digits"%string, chars "1")]) (λ i, i)).
  - done.
  - lia.
Defined.

(** ** The order of the sort *)

Section KeyOrder.

Lemma ord_inj c d : ord c = ord d → c = d.
Proof.
  unfold ord. intros H.
  by rewrite <- (ascii_N_embedding c), <- (ascii_N_embedding d), H.
Qed.

Global Instance key_le_trans : Transitive key_le.
Proof.
  intros c d e. unfold key_le, tuple_le, key. simpl.
  destruct (Bool.eqb (isalnum c) false), (Bool.eqb (isalnum d) false),
    (Bool.eqb (isalnum e) false); try done; lia.
Qed.

Global Instance key_le_total : Total key_le.
Proof.
  intros c d. unfold key_le, tuple_le, key. simpl.
  destruct (Bool.eqb (isalnum c) false), (Bool.eqb (isalnum d) false);
    try (by left); try (by right); lia.
Qed.

Global Instance key_le_antisymm : AntiSymm (=) key_le.
Proof.
  intros c d. unfold key_le, tuple_le, key. simpl.
  destruct (Bool.eqb (isalnum c) false), (Bool.eqb (isalnum d) false);
    try done; intros; apply ord_inj; lia.
Qed.

Lemma sorted_Permutation l : sorted l ≡ₚ l.
Proof. apply merge_sort_Permutation. Qed.

Lemma sorted_StronglySorted l : StronglySorted key_le (sorted l).
Proof. apply StronglySorted_merge_sort; apply _. Qed.

(** The result of the sort does not depend on the order of its input. *)
Lemma sorted_order_irrelevant l1 l2 : l1 ≡ₚ l2 → sorted l1 = sorted l2.
Proof.
  intros Hperm. apply (StronglySorted_unique key_le).
  - apply sorted_StronglySorted.
  - apply sorted_StronglySorted.
  - by rewrite !sorted_Permutation.
Qed.

Lemma elem_of_sorted c l : c ∈ sorted l ↔ c ∈ l.
Proof. by rewrite sorted_Permutation. Qed.

(** A duplicate-free list in key order is its alphanumeric characters in
    ascending order followed by its other characters in ascending order. *)
Lemma key_sorted_split l :
  StronglySorted key_le l → NoDup l →
  ∃ alnum rest,
    l = alnum ++ rest
    ∧ Forall (λ c, isalnum c = true) alnum
    ∧ Forall (λ c, isalnum c = false) rest
    ∧ StronglySorted ord_lt alnum
    ∧ StronglySorted ord_lt rest.
Proof.
  induction 1 as [|x l Hsorted IH Hx]; intros Hnodup.
  { exists [], []. split_and!; by constructor. }
  apply NoDup_cons in Hnodup as [Hnotin Hnodup].
  destruct (IH Hnodup) as (alnum & rest & -> & Halnum & Hrest & Hsa & Hsr).
  assert (∀ y, y ∈ alnum ++ rest → isalnum y = isalnum x → ord_lt x y) as Hlt.
  { intros y Hy Hsame. rewrite Forall_forall in Hx. specialize (Hx y Hy).
    assert (x ≠ y) as Hneq by (intros ->; done).
    assert (ord x ≠ ord y) by (intros ?; by apply Hneq, ord_inj).
    revert Hx. unfold key_le, tuple_le, key, ord_lt. simpl. rewrite Hsame.
    destruct (Bool.eqb (isalnum x) false); lia. }
  destruct (isalnum x) eqn:Hxa.
  - exists (x :: alnum), rest. split_and!; [done|by constructor|done| |done].
    constructor; [done|]. apply Forall_forall. intros y Hy.
    apply Hlt; [apply elem_of_app; by left|].
    rewrite Forall_forall in Halnum. by apply Halnum.
  - assert (alnum = []) as ->.
    { destruct alnum as [|y alnum]; [done|]. exfalso.
      rewrite Forall_forall in Hx. specialize (Hx y ltac:(by left)).
      apply Forall_cons in Halnum as [Hy _].
      revert Hx. unfold key_le, tuple_le, key. simpl. by rewrite Hxa, Hy. }
    exists [], (x :: rest). simpl in *. split_and!; [done|done|by constructor| |].
    + constructor.
    + constructor; [done|]. apply Forall_forall. intros y Hy.
      apply Hlt; [done|]. rewrite Forall_forall in Hrest. by apply Hrest.
Qed.

End KeyOrder.

(** ** Claims about [build_charset] *)

(** C4. For every combination of the five flags [build_charset] is
    deterministic: two calls with the same arguments return the same string,
    whatever the orders in which the two sets are iterated.  The output has
    no duplicate character, and it consists of its alphanumeric characters in
    ascending order of code point followed by its other characters in
    ascending order of code point. *)
Theorem build_charset_deterministic_unique_ordered
    (iter1 iter2 : gset ascii → list ascii)
    (use_lower use_upper use_digits use_symbols avoid_ambiguous : bool) :
  set_iteration iter1 → set_iteration iter2 →
  let out := build_charset iter1 use_lower use_upper use_digits use_symbols avoid_ambiguous in
  out = build_charset iter2 use_lower use_upper use_digits use_symbols avoid_ambiguous
  ∧ NoDup out
  ∧ ∃ alnum rest,
      out = alnum ++ rest
      ∧ Forall (λ c, isalnum c = true) alnum
      ∧ Forall (λ c, isalnum c = false) rest
      ∧ StronglySorted ord_lt alnum
      ∧ StronglySorted ord_lt rest.
Proof.
  intros H1 H2 out. subst out. unfold build_charset.
  set (X := list_to_set _). split_and!.
  - apply sorted_order_irrelevant. by rewrite (H1 X), (H2 X).
  - rewrite sorted_Permutation, (H1 X). apply NoDup_elements.
  - apply key_sorted_split; [apply sorted_StronglySorted|].
    rewrite sorted_Permutation, (H1 X). apply NoDup_elements.
Qed.

Lemma build_charset_deterministic_unique_ordered_witness :
  build_charset elements true true true true true
  = build_charset (λ X, reverse (elements X)) true true true true true
  ∧ NoDup (build_charset elements true true true true true)
  ∧ ∃ alnum rest,
      build_charset elements true true true true true = alnum ++ rest
      ∧ Forall (λ c, isalnum c = true) alnum
      ∧ Forall (λ c, isalnum c = false) rest
      ∧ StronglySorted ord_lt alnum
      ∧ StronglySorted ord_lt rest.
Proof.
  apply (build_charset_deterministic_unique_ordered
           elements (λ X, reverse (elements X)) true true true true true).
  - intros X. reflexivity.
  - intros X. apply reverse_Permutation.
Defined.

(** C5. For every combination of the four class flags, when the exclusion
    flag is true none of the five ambiguous characters (capital O, digit 0,
    capital I, lowercase l, digit 1) appears in the alphabet that
    [build_charset] returns. *)
Theorem build_charset_excludes_ambiguous
    (iter : gset ascii → list ascii)
    (use_lower use_upper use_digits use_symbols : bool) :
  set_iteration iter →
  AMBIGUOUS_CHARS = ["O"; "0"; "I"; "l"; "1"]%char
  ∧ ∀ c, c ∈ AMBIGUOUS_CHARS →
         c ∉ build_charset iter use_lower use_upper use_digits use_symbols true.
Proof.
  intros Hiter. split; [done|]. intros c Hamb Hc.
  unfold build_charset in Hc.
  rewrite elem_of_sorted, (Hiter _), elem_of_elements, elem_of_list_to_set in Hc.
  apply list_elem_of_filter in Hc as [Hc _].
  apply negb_true_iff in Hc. unfold char_in in Hc.
  by apply bool_decide_eq_false in Hc.
Qed.

Lemma build_charset_excludes_ambiguous_witness :
  AMBIGUOUS_CHARS = ["O"; "0"; "I"; "l"; "1"]%char
  ∧ ∀ c, c ∈ AMBIGUOUS_CHARS → c ∉ build_charset elements true true true true true.
Proof.
  apply (build_charset_excludes_ambiguous elements true true true true).
  intros X. reflexivity.
Defined.

(** ** Comparison of numbers *)

Section Comparison.
Implicit Types (a b : number) (k : Z).

Lemma xcompare_antisym x y :
  xcompare y x = CompOpp <$> xcompare x y.
Proof.
  destruct x, y; simpl; try done. by rewrite <- Qcompare_antisym.
Qed.

Lemma py_ge_not_lt a b : py_ge a b = true → py_lt a b = false.
Proof.
  unfold py_ge, py_le, py_lt. rewrite (xcompare_antisym (value a) (value b)).
  by destruct (xcompare (value a) (value b)) as [[]|].
Qed.

Lemma py_lt_le_int a k k' :
  py_lt a (PyInt k) = true → k ≤ k' → py_lt a (PyInt k') = true.
Proof.
  unfold py_lt. simpl. intros Hlt Hk. destruct (value a) as [| |q|]; try done.
  simpl in *. destruct (Qcompare q (inject_Z k)) eqn:Hq; try done.
  apply Qlt_alt in Hq. rewrite Zle_Qle in Hk.
  by rewrite (proj1 (Qlt_alt _ _) (Qlt_le_trans _ _ _ Hq Hk)).
Qed.

Lemma py_le_lt_int a b k :
  py_le a b = true → py_lt b (PyInt k) = true → py_lt a (PyInt k) = true.
Proof.
  unfold py_le, py_lt. simpl.
  destruct (value a) as [| |p|], (value b) as [| |q|]; simpl; try done.
  intros Hle Hlt.
  assert (p <= q)%Q as Hpq.
  { apply Qle_alt. by destruct (Qcompare p q). }
  assert (q < inject_Z k)%Q as Hqk.
  { apply Qlt_alt. by destruct (Qcompare q (inject_Z k)). }
  by rewrite (proj1 (Qlt_alt _ _) (Qle_lt_trans _ _ _ Hpq Hqk)).
Qed.

Lemma py_ge_int_not_lt a k k' :
  py_ge a (PyInt k) = true → k' ≤ k → py_lt a (PyInt k') = false.
Proof.
  intros Hge Hk. apply py_ge_not_lt in Hge.
  destruct (py_lt a (PyInt k')) eqn:Hlt; [|done].
  by rewrite (py_lt_le_int a k' k Hlt Hk) in Hge.
Qed.

End Comparison.

(** ** Claims about [strength_label] *)

(** C6. [strength_label] classifies its input into five ordered labels, with
    bands that include their lower bound: below 28 "Very Weak", from 28 and
    below 36 "Weak", from 36 and below 60 "Reasonable", from 60 and below 80
    "Strong", from 80 "Very Strong"; in particular 28.0 is "Weak" and 80.0 is
    "Very Strong".  Every label is one of the five and each of the five is the
    label of some input. *)
Theorem strength_label_bands (bits : number) :
  (py_lt bits (PyInt 28) = true → strength_label bits = "Very Weak")
  ∧ (py_ge bits (PyInt 28) = true → py_lt bits (PyInt 36) = true →
     strength_label bits = "Weak")
  ∧ (py_ge bits (PyInt 36) = true → py_lt bits (PyInt 60) = true →
     strength_label bits = "Reasonable")
  ∧ (py_ge bits (PyInt 60) = true → py_lt bits (PyInt 80) = true →
     strength_label bits = "Strong")
  ∧ (py_ge bits (PyInt 80) = true → strength_label bits = "Very Strong")
  ∧ strength_label (PyFloat f28_0) = "Weak"
  ∧ strength_label (PyFloat f80_0) = "Very Strong"
  ∧ strength_label bits ∈ labels
  ∧ Forall (λ l, ∃ b, strength_label b = l) labels
  ∧ NoDup labels.
Proof.
  unfold strength_label. split_and!.
  - by intros ->.
  - intros Hge ->. by rewrite (py_ge_int_not_lt bits 28 28 Hge).
  - intros Hge ->.
    by rewrite (py_ge_int_not_lt bits 36 28 Hge), (py_ge_int_not_lt bits 36 36 Hge).
  - intros Hge ->.
    by rewrite (py_ge_int_not_lt bits 60 28 Hge), (py_ge_int_not_lt bits 60 36 Hge),
      (py_ge_int_not_lt bits 60 60 Hge).
  - intros Hge.
    by rewrite (py_ge_int_not_lt bits 80 28 Hge), (py_ge_int_not_lt bits 80 36 Hge),
      (py_ge_int_not_lt bits 80 60 Hge), (py_ge_int_not_lt bits 80 80 Hge).
  - reflexivity.
  - reflexivity.
  - unfold labels. repeat case_match; set_solver.
  - unfold labels. repeat constructor.
    + by exists (PyInt 0).
    + by exists (PyInt 28).
    + by exists (PyInt 36).
    + by exists (PyInt 60).
    + by exists (PyInt 80).
  - unfold labels. compute_done.
Qed.

Lemma strength_label_bands_witness :
  strength_label (PyFloat f28_0) = "Weak".
Proof.
  refine (proj1 (proj2 (strength_label_bands (PyFloat f28_0))) _ _); reflexivity.
Defined.

(** C10. [strength_label] is monotone: when [b1 <= b2], the label of [b1] is
    at or below the label of [b2] in the order Very Weak < Weak < Reasonable
    < Strong < Very Strong. *)
Theorem strength_label_monotone (b1 b2 : number) :
  py_le b1 b2 = true →
  ∃ r1 r2, label_rank (strength_label b1) = Some r1
           ∧ label_rank (strength_label b2) = Some r2
           ∧ (r1 ≤ r2)%nat.
Proof.
  intros Hle. unfold strength_label.
  pose proof (py_le_lt_int b1 b2 28 Hle) as H28.
  pose proof (py_le_lt_int b1 b2 36 Hle) as H36.
  pose proof (py_le_lt_int b1 b2 60 Hle) as H60.
  pose proof (py_le_lt_int b1 b2 80 Hle) as H80.
  pose proof (py_lt_le_int b1 28 36) as M1.
  pose proof (py_lt_le_int b1 36 60) as M2.
  pose proof (py_lt_le_int b1 60 80) as M3.
  destruct (py_lt b1 (PyInt 28)), (py_lt b1 (PyInt 36)), (py_lt b1 (PyInt 60)),
    (py_lt b1 (PyInt 80)), (py_lt b2 (PyInt 28)), (py_lt b2 (PyInt 36)),
    (py_lt b2 (PyInt 60)), (py_lt b2 (PyInt 80));
    first
      [ by (eexists _, _; split_and!; [vm_compute; reflexivity..|lia])
      | exfalso;
        repeat match goal with
               | H : true = true → _ |- _ => specialize (H eq_refl)
               | H : (_ ≤ _) → _ |- _ => specialize (H ltac:(lia))
               end;
        congruence ].
Qed.

Lemma strength_label_monotone_witness :
  ∃ r1 r2, label_rank (strength_label (PyFloat f28_0)) = Some r1
           ∧ label_rank (strength_label (PyInt 80)) = Some r2
           ∧ (r1 ≤ r2)%nat.
Proof.
  apply (strength_label_monotone (PyFloat f28_0) (PyInt 80)). reflexivity.
Defined.

Section IntToFloat.

Lemma digits2_pos_size p : digits2_pos p = Pos.size p.
Proof. induction p as [p IH|p IH|]; simpl; by rewrite ?IH. Qed.

Lemma digits2_pos_bound p n :
  0 ≤ n → Zpos p < 2 ^ n → Zpos (digits2_pos p) ≤ n.
Proof.
  intros Hn Hp. rewrite digits2_pos_size.
  pose proof (Pos.size_le p) as Hsize.
  assert (2 ^ Zpos (Pos.size p) ≤ 2 * Zpos p) as Hz.
  { rewrite <- Pos2Z.inj_pow. change (2 * Zpos p) with (Zpos p~0). lia. }
  assert (2 ^ Zpos (Pos.size p) < 2 ^ (n + 1)) as Hlt.
  { rewrite Z.pow_add_r by lia. lia. }
  apply Z.pow_lt_mono_r_iff in Hlt; lia.
Qed.

Lemma digits2_pos_iter_xO p k :
  digits2_pos (Pos.iter xO p k) = (digits2_pos p + k)%positive.
Proof.
  induction k as [|k IH] using Pos.peano_ind.
  - simpl. lia.
  - rewrite Pos.iter_succ. simpl. rewrite IH. lia.
Qed.

Lemma binary_round_aux_exact m e :
  Zpos (digits2_pos m) = prec → -1074 ≤ e ≤ 971 →
  binary_round_aux prec emax false (Zpos m) e loc_Exact = S754_finite false m e.
Proof.
  intros Hd He. unfold binary_round_aux, shr_fexp, fexp, emin. simpl Zdigits2.
  rewrite Hd.
  replace (Z.max (prec + e - prec) (3 - emax - prec) - e) with 0
    by (unfold prec, emax; lia).
  simpl. rewrite Hd.
  replace (Z.max (prec + e - prec) (3 - emax - prec) - e) with 0
    by (unfold prec, emax; lia).
  simpl. destruct (Z.leb_spec e (emax - prec)); [done|]. unfold prec, emax in *. lia.
Qed.

(** An [int] below [2 ** 53] in absolute value converts. *)
Lemma int_to_float_small z :
  0 < z < 2 ^ 53 → ∃ m e, int_to_float z = Ok (S754_finite false m e).
Proof.
  intros [Hpos Hlt]. destruct z as [|p|p]; try lia.
  pose proof (digits2_pos_bound p 53 ltac:(lia) Hlt) as Hd.
  unfold int_to_float, binary_normalize, binary_round, shl_align.
  unfold fexp, emin.
  replace (Z.max (Zpos (digits2_pos p) + 0 - prec) (3 - emax - prec))
    with (Zpos (digits2_pos p) - 53) by (unfold prec, emax; lia).
  destruct (Zpos (digits2_pos p) - 53 - 0) as [|q|q] eqn:Hq; try lia.
  - rewrite binary_round_aux_exact; [eauto| unfold prec; lia | lia].
  - rewrite binary_round_aux_exact; [eauto| |lia].
    rewrite digits2_pos_iter_xO. unfold prec. lia.
Qed.
End IntToFloat.

(** ** Claims about [calculate_entropy_bits] *)

(** C7, as stated, fails: for the alphabet size 2 and the length [2 ** 1024],
    both positive, the product [length * math.log2(charset_len)] cannot
    convert the length to a float, and the call raises instead of
    returning. *)
Lemma calculate_entropy_bits_overflow_counterexample :
  0 < 2 ∧ 0 < 2 ^ 1024
  ∧ calculate_entropy_bits (λ _, f1_0) 2 (2 ^ 1024)
    = Raise (OverflowError "int too large to convert to float").
Proof. split_and!; [lia|lia|]. by vm_compute. Qed.

(** C7, amended. [calculate_entropy_bits] returns 0.0, without raising,
    whenever the alphabet size or the length is at most 0.  Otherwise, when
    the length converts to a float, as every length below [2 ** 53] does, it
    returns the float product of the length and [log2] of the alphabet size;
    when the length is too large to convert, it raises that error.  In
    particular, [log2(2)] being 1.0, the result for the size 2 and the length
    10 is exactly 10.0. *)
Theorem calculate_entropy_bits_spec
    (log2 : Z → spec_float) (charset_len length : Z) :
  (charset_len ≤ 0 ∨ length ≤ 0 →
   calculate_entropy_bits log2 charset_len length = Ok f0_0)
  ∧ (0 < charset_len → 0 < length →
     ∀ x, int_to_float length = Ok x →
          calculate_entropy_bits log2 charset_len length
          = Ok (SFmul prec emax x (log2 charset_len)))
  ∧ (0 < length < 2 ^ 53 → ∃ x, int_to_float length = Ok x)
  ∧ (0 < charset_len → 0 < length →
     ∀ e, int_to_float length = Raise e →
          calculate_entropy_bits log2 charset_len length = Raise e)
  ∧ (log2 2 = f1_0 → calculate_entropy_bits log2 2 10 = Ok f10_0).
Proof.
  unfold calculate_entropy_bits, int_mul_float. split_and!.
  - intros [H|H].
    + by destruct (Z.leb_spec charset_len 0); [|lia].
    + destruct (Z.leb_spec length 0); [|lia]. by rewrite orb_true_r.
  - intros Hc Hl x Hx.
    destruct (Z.leb_spec charset_len 0); [lia|].
    destruct (Z.leb_spec length 0); [lia|]. simpl. by rewrite Hx.
  - intros Hl. destruct (int_to_float_small length Hl) as (m & e & Hx). eauto.
  - intros Hc Hl e He.
    destruct (Z.leb_spec charset_len 0); [lia|].
    destruct (Z.leb_spec length 0); [lia|]. simpl. by rewrite He.
  - intros ->. by vm_compute.
Qed.

Lemma calculate_entropy_bits_spec_witness :
  calculate_entropy_bits (λ _, f1_0) 2 10 = Ok f10_0.
Proof.
  apply (calculate_entropy_bits_spec (λ _, f1_0) 2 10). reflexivity.
Defined.

(** The conversion raises from [2 ** 1024 - 2 ** 970] on, the first [int]
    that rounds to [2 ** 1024]. *)
Example int_to_float_boundary :
  int_to_float (2 ^ 1024 - 2 ^ 970 - 1)
  = Ok (S754_finite false 9007199254740991 971)
  ∧ int_to_float (2 ^ 1024 - 2 ^ 970)
    = Raise (OverflowError "int too large to convert to float")
  ∧ int_to_float 10 = Ok f10_0.
Proof. by vm_compute. Qed.

(** ** The examples of the specification *)

Example build_charset_nothing_selected :
  build_charset elements false false false false false = []
  ∧ ∀ length require_each classes s,
      outcome (generate_single_password length
                 (build_charset elements false false false false false)
                 require_each classes s)
      = Raise EmptyAlphabetError.
Proof. split; [by vm_compute|]. intros. by rewrite generate_empty_charset. Qed.

Example build_charset_everything_selected :
  build_charset elements true true true true false
  = chars "0123456789ABCDEFGHIJKLMNOPQRSTUVWXYZabcdefghijklmnopqrstuvwxyz!"
      ++ [chr 34] ++ chars "#$%&'()*+,-./:;<=>?@[\]^_`{|}~".
Proof. by vm_compute. Qed.

Example build_charset_without_ambiguous :
  build_charset elements true true true false true
  = chars "23456789ABCDEFGHJKLMNPQRSTUVWXYZabcdefghijkmnopqrstuvwxyz".
Proof. by vm_compute. Qed.

(** 27.9 and 59.9, rounded to binary64 *)
Example strength_label_examples :
  strength_label (PyFloat (S754_finite false 7853151850227302 (-48))) = "Very Weak"
  ∧ strength_label (PyFloat f28_0) = "Weak"
  ∧ strength_label (PyFloat (S754_finite false 8430175552484147 (-47))) = "Reasonable"
  ∧ strength_label (PyFloat f80_0) = "Very Strong"
  ∧ strength_label (PyFloat S754_nan) = "Very Strong".
Proof. by vm_compute. Qed.

(** All four classes, no exclusion, length 8, [require_each]: on every tape
    the password has 8 characters, among them a lowercase letter, an uppercase
    letter, a digit and a symbol. *)
Example generate_all_classes_length_8 (s : entropy) :
  let classes := Some [("lower"%string, ascii_lowercase); ("upper"%string, ascii_uppercase);
                       ("digits"%string, digits); ("symbols"%string, SYMBOLS)] in
  ∃ pw, outcome (generate_single_password 8
                   (build_charset elements true true true true false) true classes s)
        = Ok pw
        ∧ List.length pw = 8%nat
        ∧ Forall (λ pool, ∃ c, c ∈ pool ∧ c ∈ pw)
            [ascii_lowercase; ascii_uppercase; digits; SYMBOLS].
Proof.
  intros classes.
  set (charset := build_charset elements true true true true false).
  assert (charset ≠ []) as Hne by (by vm_compute).
  clearbody charset.
  assert (required_of classes
          = [("lower"%string, ascii_lowercase); ("upper"%string, ascii_uppercase);
             ("digits"%string, digits); ("symbols"%string, SYMBOLS)]) as Hrequired
    by (by vm_compute).
  destruct (returns_outcome _ _ s
              (generate_returns 8 charset true classes Hne ltac:(lia)
                 ltac:(intros _; rewrite Hrequired; simpl; lia)))
    as (pw & Hrun & firsts & extra & Hperm & Hlen & _ & Hfirsts).
  exists pw. split_and!; [done|lia|].
  change (true && truthy classes) with true in Hfirsts. cbv iota in Hfirsts.
  rewrite Hrequired in Hfirsts. clear Hrun Hrequired.
  repeat (apply Forall2_cons_inv_l in Hfirsts as (? & ? & ? & Hfirsts & ->)).
  apply Forall2_nil_inv_l in Hfirsts as ->.
  repeat constructor; eexists; (split; [eassumption|]); rewrite Hperm;
    rewrite elem_of_app, !elem_of_cons; tauto.
Qed.

(** * Further properties of the code *)

(** ** The alphabet *)

Section Alphabet.
Variable iter : gset ascii → list ascii.
Hypothesis iter_ok : set_iteration iter.
Implicit Types (l u d sy a : bool) (c : ascii).

(** The characters before the set is built *)
Lemma elem_of_build_charset_raw l u d sy a c :
  c ∈ build_charset iter l u d sy a ↔
  c ∈ (if a then filter (λ ch, negb (char_in ch AMBIGUOUS_CHARS) = true) else id)
        ((if sy then λ x, x ++ SYMBOLS else id)
           ((if d then λ x, x ++ digits else id)
              ((if u then λ x, x ++ ascii_uppercase else id)
                 ((if l then λ x, x ++ ascii_lowercase else id) [])))).
Proof.
  unfold build_charset.
  rewrite elem_of_sorted, (iter_ok _), elem_of_elements, elem_of_list_to_set.
  by destruct l, u, d, sy, a.
Qed.

Lemma length_build_charset_size l u d sy a :
  List.length (build_charset iter l u d sy a)
  = ((if l then if a then 25 else 26 else 0)
     + (if u then if a then 24 else 26 else 0)
     + (if d then if a then 8 else 10 else 0)
     + (if sy then 32 else 0))%nat.
Proof.
  unfold build_charset.
  etrans; [apply Permutation_length, sorted_Permutation|].
  etrans; [apply Permutation_length, iter_ok|].
  by destruct l, u, d, sy, a; vm_compute.
Qed.

Lemma build_charset_nil_iff l u d sy a :
  build_charset iter l u d sy a = [] ↔ l = false ∧ u = false ∧ d = false ∧ sy = false.
Proof.
  rewrite <- length_zero_iff_nil, length_build_charset_size.
  destruct l, u, d, sy, a; cbn; split; first [done | by intros (? & ? & ? & ?)].
Qed.

End Alphabet.

(** X1. A character is in the alphabet exactly when it is in the pool of a
    selected class and, with the exclusion on, is not an ambiguous
    character. *)
Theorem build_charset_members
    (iter : gset ascii → list ascii)
    (use_lower use_upper use_digits use_symbols avoid_ambiguous : bool) (c : ascii) :
  set_iteration iter →
  c ∈ build_charset iter use_lower use_upper use_digits use_symbols avoid_ambiguous
  ↔ ((use_lower = true ∧ c ∈ ascii_lowercase)
     ∨ (use_upper = true ∧ c ∈ ascii_uppercase)
     ∨ (use_digits = true ∧ c ∈ digits)
     ∨ (use_symbols = true ∧ c ∈ SYMBOLS))
    ∧ (avoid_ambiguous = true → c ∉ AMBIGUOUS_CHARS).
Proof.
  intros Hiter. rewrite (elem_of_build_charset_raw iter Hiter).
  assert (negb (char_in c AMBIGUOUS_CHARS) = true ↔ c ∉ AMBIGUOUS_CHARS) as Hamb.
  { unfold char_in. rewrite negb_true_iff, bool_decide_eq_false. done. }
  destruct avoid_ambiguous, use_lower, use_upper, use_digits, use_symbols;
    cbv beta iota; unfold id;
    rewrite ?list_elem_of_filter, ?Hamb, ?elem_of_app, ?elem_of_nil;
    intuition congruence.
Qed.

Lemma build_charset_members_witness :
  "a"%char ∈ build_charset elements true false true false true
  ↔ ((true = true ∧ "a"%char ∈ ascii_lowercase)
     ∨ (false = true ∧ "a"%char ∈ ascii_uppercase)
     ∨ (true = true ∧ "a"%char ∈ digits)
     ∨ (false = true ∧ "a"%char ∈ SYMBOLS))
    ∧ (true = true → "a"%char ∉ AMBIGUOUS_CHARS).
Proof.
  apply (build_charset_members elements true false true false true "a"%char).
  intros X. reflexivity.
Defined.

(** X2. The size of the alphabet: 26 lowercase letters, 26 uppercase letters,
    10 digits and 32 symbols for the selected classes, less one lowercase
    letter, two uppercase letters and two digits with the exclusion on; so the
    alphabet is empty exactly when no class is selected. *)
Theorem build_charset_size
    (iter : gset ascii → list ascii)
    (use_lower use_upper use_digits use_symbols avoid_ambiguous : bool) :
  set_iteration iter →
  List.length (build_charset iter use_lower use_upper use_digits use_symbols avoid_ambiguous)
  = ((if use_lower then if avoid_ambiguous then 25 else 26 else 0)
     + (if use_upper then if avoid_ambiguous then 24 else 26 else 0)
     + (if use_digits then if avoid_ambiguous then 8 else 10 else 0)
     + (if use_symbols then 32 else 0))%nat
  ∧ (build_charset iter use_lower use_upper use_digits use_symbols avoid_ambiguous = []
     ↔ use_lower = false ∧ use_upper = false ∧ use_digits = false ∧ use_symbols = false).
Proof.
  intros Hiter. split.
  - by apply length_build_charset_size.
  - by apply build_charset_nil_iff.
Qed.

Lemma build_charset_size_witness :
  List.length (build_charset elements true true true true true) = (25 + 24 + 8 + 32)%nat
  ∧ (build_charset elements true true true true true = []
     ↔ true = false ∧ true = false ∧ true = false ∧ true = false).
Proof.
  apply (build_charset_size elements true true true true true).
  intros X. reflexivity.
Defined.

(** ** The outcomes of the generator *)

(** X3. [generate_single_password] returns a password exactly when the
    alphabet is not empty, the length is at least 1 and, on the constrained
    path, the length is at least the number of classes with a non-empty pool.
    Otherwise it raises one of its three errors and never any other
    exception. *)
Theorem generate_single_password_outcomes
    (length : Z) (charset : list ascii) (require_each : bool)
    (classes : class_list) (s : entropy) :
  ((∃ pw, outcome (generate_single_password length charset require_each classes s) = Ok pw)
   ↔ charset ≠ [] ∧ 1 ≤ length
     ∧ (require_each && truthy classes = true →
        Z.of_nat (List.length (required_of classes)) ≤ length))
  ∧ ∀ e, outcome (generate_single_password length charset require_each classes s) = Raise e →
         e = EmptyAlphabetError ∨ e = InvalidLengthError ∨ e = LengthTooShortError.
Proof.
  destruct (decide (charset = [])) as [->|Hne].
  { rewrite generate_empty_charset. simpl. split.
    - split; [by intros [pw ?]|by intros [? _]].
    - intros e [= <-]. by left. }
  destruct (Z.lt_ge_cases length 1) as [Hlt|Hlen].
  { rewrite generate_invalid_length by done. simpl. split.
    - split; [by intros [pw ?]|intros (_ & ? & _); lia].
    - intros e [= <-]. right. by left. }
  destruct (require_each && truthy classes) eqn:Hpath.
  - apply andb_true_iff in Hpath as [-> Hcls].
    destruct (Z.lt_ge_cases length (Z.of_nat (List.length (required_of classes))))
      as [Hshort|Hfits].
    + rewrite generate_length_too_short by done. simpl. split.
      * split; [by intros [pw ?]|]. intros (_ & _ & Hle).
        specialize (Hle eq_refl). lia.
      * intros e [= <-]. right. by right.
    + destruct (returns_outcome _ _ s
                  (generate_returns length charset true classes Hne Hlen (λ _, Hfits)))
        as (pw & -> & _).
      split; [|done]. split; [|by exists pw]. intros _. by split_and!.
  - destruct (returns_outcome _ _ s
                (generate_returns length charset require_each classes Hne Hlen
                   ltac:(by rewrite Hpath)))
      as (pw & -> & _).
    split; [|done]. split; [|by exists pw]. intros _. by split_and!.
Qed.

Lemma generate_single_password_outcomes_witness :
  InvalidLengthError = EmptyAlphabetError ∨ InvalidLengthError = InvalidLengthError
  ∨ InvalidLengthError = LengthTooShortError.
Proof.
  apply (generate_single_password_outcomes 0 (chars "ab") false None (λ i, i)).
  reflexivity.
Defined.

(** X4. On the constrained path the password is a rearrangement of one
    character from the pool of every required class, in the order of the
    classes, followed by [length] less the number of required classes
    characters of the alphabet.  A pool that is not part of the alphabet can
    thus put a character into the password that the alphabet does not
    have. *)
Theorem generate_single_password_constrained_shape
    (length : Z) (charset : list ascii) (classes : class_list) (s : entropy) :
  charset ≠ [] → 1 ≤ length → truthy classes = true →
  Z.of_nat (List.length (required_of classes)) ≤ length →
  ∃ pw firsts extra,
    outcome (generate_single_password length charset true classes s) = Ok pw
    ∧ pw ≡ₚ firsts ++ extra
    ∧ Forall2 (λ cls c, c ∈ cls.2) (required_of classes) firsts
    ∧ Z.of_nat (List.length extra) = length - Z.of_nat (List.length (required_of classes))
    ∧ ∀ c, c ∈ extra → c ∈ charset.
Proof.
  intros Hne Hlen Hcls Hfits.
  destruct (returns_outcome _ _ s
              (generate_returns length charset true classes Hne Hlen (λ _, Hfits)))
    as (pw & Hrun & firsts & extra & Hperm & Hpwlen & Hextra & Hfirsts).
  simpl in Hfirsts. rewrite Hcls in Hfirsts.
  exists pw, firsts, extra. split_and!; [done..| |done].
  apply Forall2_length in Hfirsts. apply Permutation_length in Hperm.
  rewrite length_app in Hperm. lia.
Qed.

Lemma generate_single_password_constrained_shape_witness :
  ∃ pw firsts extra,
    outcome (generate_single_password 1 (chars "a") true
               (Some [("digits"%string, chars "1")]) (λ i, i)) = Ok pw
    ∧ pw ≡ₚ firsts ++ extra
    ∧ Forall2 (λ cls c, c ∈ cls.2)
        (required_of (Some [("digits"%string, chars "1")])) firsts
    ∧ Z.of_nat (List.length extra)
      = 1 - Z.of_nat (List.length (required_of (Some [("digits"%string, chars "1")])))
    ∧ ∀ c, c ∈ extra → c ∈ chars "a".
Proof.
  apply (generate_single_password_constrained_shape 1 (chars "a")
           (Some [("digits"%string, chars "1")]) (λ i, i)).
  - done.
  - lia.
  - reflexivity.
  - simpl. lia.
Defined.

(** The password of that call is "1", which the alphabet "a" does not have. *)
Example generate_single_password_outside_alphabet :
  outcome (generate_single_password 1 (chars "a") true
             (Some [("digits"%string, chars "1")]) (λ i, i))
  = Ok (chars "1").
Proof. reflexivity. Qed.

(** One choice uses one draw. *)
Lemma choice_run {A} (sq : list A) (s : entropy) (x : A) :
  sq !! (s 0 mod List.length sq)%nat = Some x → List.length sq ≠ 0%nat →
  choice sq s = Ok (x, λ i, s (S i)).
Proof.
  intros Hx Hlen. unfold choice. rewrite bool_decide_false by done.
  unfold mbind, M_bind, bind, randbelow. by rewrite Hx.
Qed.

(** The draws of a comprehension over [secure_choice]: the [k]-th element is
    chosen by the [k]-th draw. *)
Lemma comprehension_choice_draws {A B} (sq : list A) (l : list B) (s : entropy) :
  sq ≠ [] →
  ∃ xs s',
    comprehension (λ _, secure_choice sq) l s = Ok (xs, s')
    ∧ List.length xs = List.length l
    ∧ (∀ k, (k < List.length l)%nat → xs !! k = sq !! (s k mod List.length sq)%nat)
    ∧ ∀ i, s' i = s (List.length l + i)%nat.
Proof.
  intros Hne. revert s. induction l as [|b l IH]; intros s.
  { exists [], s. split_and!; [done..| |done]. simpl. lia. }
  assert (0 < List.length sq)%nat as Hpos by (destruct sq; simpl; [done|lia]).
  pose proof (Nat.mod_upper_bound (s 0%nat) (List.length sq) ltac:(lia)) as Hlt.
  destruct (lookup_lt_is_Some_2 sq _ Hlt) as [x Hx].
  destruct (IH (λ i, s (S i))) as (xs & s' & Hrun & Hlen & Hdraw & Htape).
  exists (x :: xs), s'.
  split_and!.
  - change (comprehension (λ _, secure_choice sq) (b :: l) s)
      with (bind (choice sq)
              (λ y, bind (comprehension (λ _, secure_choice sq) l)
                      (λ ys, ret (y :: ys))) s).
    unfold bind at 1. rewrite (choice_run sq s x) by (done || lia).
    unfold bind at 1. by rewrite Hrun.
  - simpl. by rewrite Hlen.
  - intros [|k] Hk; [done|]. simpl in *. apply Hdraw. lia.
  - intros i. by rewrite Htape.
Qed.

(** X5. On the unconstrained path ([require_each] false, or no class given)
    the password takes one draw per position, in order: its [k]-th character
    is the character of the alphabet that the [k]-th draw selects, and
    exactly [length] draws are used. *)
Theorem generate_single_password_unconstrained_draws
    (length : Z) (charset : list ascii) (require_each : bool)
    (classes : class_list) (s : entropy) :
  charset ≠ [] → 1 ≤ length → require_each && truthy classes = false →
  ∃ pw s',
    generate_single_password length charset require_each classes s = Ok (pw, s')
    ∧ Z.of_nat (List.length pw) = length
    ∧ (∀ k, (k < Z.to_nat length)%nat →
            pw !! k = charset !! (s k mod List.length charset)%nat)
    ∧ ∀ i, s' i = s (Z.to_nat length + i)%nat.
Proof.
  intros Hne Hlen Hpath. unfold generate_single_password.
  rewrite bool_decide_false by done.
  destruct (Z.ltb_spec length 1); [lia|]. rewrite Hpath.
  destruct (comprehension_choice_draws charset (range length) s Hne)
    as (pw & s' & Hrun & Hpwlen & Hdraw & Htape).
  unfold range in *. rewrite length_seq in *.
  exists pw, s'. split_and!; [done|lia|done|done].
Qed.

Lemma generate_single_password_unconstrained_draws_witness :
  ∃ pw s',
    generate_single_password 3 (chars "ab") false None (λ i, i) = Ok (pw, s')
    ∧ Z.of_nat (List.length pw) = 3
    ∧ (∀ k, (k < Z.to_nat 3)%nat →
            pw !! k = chars "ab" !! (k mod List.length (chars "ab"))%nat)
    ∧ ∀ i, s' i = (Z.to_nat 3 + i)%nat.
Proof.
  apply (generate_single_password_unconstrained_draws 3 (chars "ab") false None (λ i, i)).
  - done.
  - lia.
  - reflexivity.
Defined.

(** ** The lines of the list box *)

Section Lines.
Import Gui.
Implicit Types (pw item : list ascii) (i k : nat).

Lemma uint_chars_no_dot d : "."%char ∉ uint_chars d.
Proof.
  induction d; simpl; [apply not_elem_of_nil|..];
    (apply not_elem_of_cons; split; [done|assumption]).
Qed.

Lemma format_02d_no_dot i : "."%char ∉ format_02d i.
Proof.
  unfold format_02d, str_nat. intros [Hin|Hin]%elem_of_app.
  - by apply elem_of_replicate in Hin as [? _].
  - by apply uint_chars_no_dot in Hin.
Qed.

Lemma partition_first_cons sep c s :
  partition_first sep (c :: s)
  = if starts_with sep (c :: s) then Some ([], drop (List.length sep) (c :: s))
    else prod_map (cons c) id <$> partition_first sep s.
Proof. done. Qed.

(** The first [". "] of a text that begins with dotless characters followed
    by [". "] is that one. *)
Lemma partition_first_after_prefix p rest :
  "."%char ∉ p →
  partition_first (chars ". ") (p ++ chars ". " ++ rest) = Some (p, rest).
Proof.
  change (chars ". " ++ rest) with ("."%char :: " "%char :: rest).
  change (chars ". ") with ["."%char; " "%char].
  induction p as [|c p IH]; intros Hp.
  { change ([] ++ "."%char :: " "%char :: rest) with ("."%char :: " "%char :: rest).
    rewrite partition_first_cons.
    by replace (starts_with ["."%char; " "%char] ("."%char :: " "%char :: rest))
      with true by reflexivity. }
  apply not_elem_of_cons in Hp as [Hc Hp].
  change ((c :: p) ++ "."%char :: " "%char :: rest)
    with (c :: (p ++ "."%char :: " "%char :: rest)).
  rewrite partition_first_cons.
  replace (starts_with ["."%char; " "%char] (c :: p ++ "."%char :: " "%char :: rest))
    with false by (cbn [starts_with]; by rewrite bool_decide_false).
  by rewrite (IH Hp).
Qed.

Lemma contains_display_line i pw : contains (chars ". ") (display_line i pw) = true.
Proof.
  unfold contains, display_line.
  rewrite partition_first_after_prefix by apply format_02d_no_dot.
  by apply bool_decide_eq_true.
Qed.

Lemma split_1_display_line i pw :
  split_1 (chars ". ") (display_line i pw) = [format_02d i; pw].
Proof.
  unfold split_1, display_line.
  by rewrite partition_first_after_prefix by apply format_02d_no_dot.
Qed.

Lemma strip_index_display_line i pw : strip_index (display_line i pw) = Ok pw.
Proof.
  unfold strip_index. by rewrite contains_display_line, split_1_display_line.
Qed.

Lemma lstrip_dots_no_dot s : "."%char ∉ s → lstrip_dots s = s.
Proof.
  destruct s as [|c s]; [done|]. intros [Hc _]%not_elem_of_cons. simpl.
  by rewrite bool_decide_false.
Qed.

Lemma strip_dots_no_dot s : "."%char ∉ s → strip_dots s = s.
Proof.
  intros Hs. unfold strip_dots. rewrite (lstrip_dots_no_dot s Hs).
  rewrite lstrip_dots_no_dot by by rewrite elem_of_reverse.
  apply reverse_involutive.
Qed.

Lemma csv_row_display_line i pw :
  csv_row (display_line i pw) = Ok [format_02d i; pw].
Proof.
  unfold csv_row. rewrite contains_display_line, split_1_display_line.
  by rewrite strip_dots_no_dot by apply format_02d_no_dot.
Qed.

Lemma strip_all_lines (g : nat → list ascii → list ascii) (f : nat → nat) generated :
  (∀ k pw, g k pw = display_line (f k) pw) →
  strip_all (imap g generated) = Ok generated.
Proof.
  revert g f. induction generated as [|pw generated IH]; intros g f Hg; [done|].
  cbn [imap strip_all]. rewrite Hg, strip_index_display_line.
  by rewrite (IH (g ∘ S) (f ∘ S)) by (intros; apply Hg).
Qed.

Lemma csv_rows_of_lines (g : nat → list ascii → list ascii) (f : nat → nat) generated :
  (∀ k pw, g k pw = display_line (f k) pw) →
  csv_rows_of (imap g generated)
  = Ok (imap (λ k pw, [format_02d (f k); pw]) generated).
Proof.
  revert g f. induction generated as [|pw generated IH]; intros g f Hg; [done|].
  cbn [imap csv_rows_of]. rewrite Hg, csv_row_display_line.
  by rewrite (IH (g ∘ S) (f ∘ S)) by (intros; apply Hg).
Qed.

End Lines.

(** X6. Selecting a line that [on_generate] wrote and copying it puts exactly
    the password of that line on the clipboard, whatever characters the
    password has; the rest of the display stays as it is. *)
Theorem copy_selected_recovers_password
    (generated : list (list ascii)) (i : nat) (sel : list nat)
    (pw : list ascii) (d : Gui.display) :
  Gui.pw_listbox d = Gui.display_lines generated →
  generated !! i = Some pw →
  Gui.copy_selected (i :: sel) d
  = Ok ({| Gui.pw_listbox := Gui.pw_listbox d;
           Gui.entropy_label := Gui.entropy_label d;
           Gui.last_charset := Gui.last_charset d;
           Gui.clipboard := pw |},
        "Selected password copied to clipboard."%string).
Proof.
  intros Hlines Hpw. unfold Gui.copy_selected, Gui.listbox_get.
  rewrite Hlines. unfold Gui.display_lines.
  rewrite list_lookup_imap, Hpw. simpl.
  by rewrite strip_index_display_line.
Qed.

Lemma copy_selected_recovers_password_witness :
  Gui.copy_selected [1%nat]
    {| Gui.pw_listbox := Gui.display_lines [chars "a. b"; chars "c.d. "];
       Gui.entropy_label := None; Gui.last_charset := []; Gui.clipboard := [] |}
  = Ok ({| Gui.pw_listbox := Gui.display_lines [chars "a. b"; chars "c.d. "];
           Gui.entropy_label := None; Gui.last_charset := [];
           Gui.clipboard := chars "c.d. " |},
        "Selected password copied to clipboard."%string).
Proof.
  apply (copy_selected_recovers_password [chars "a. b"; chars "c.d. "] 1 []
           (chars "c.d. ")
           {| Gui.pw_listbox := Gui.display_lines [chars "a. b"; chars "c.d. "];
              Gui.entropy_label := None; Gui.last_charset := []; Gui.clipboard := [] |}).
  - reflexivity.
  - reflexivity.
Defined.

(** X7. [copy_all] on the lines that [on_generate] wrote puts the passwords,
    without their numbers and joined by newlines, on the clipboard, and
    reports their count. *)
Theorem copy_all_recovers_passwords
    (generated : list (list ascii)) (d : Gui.display) :
  Gui.pw_listbox d = Gui.display_lines generated →
  generated ≠ [] →
  Gui.copy_all d
  = Ok ({| Gui.pw_listbox := Gui.pw_listbox d;
           Gui.entropy_label := Gui.entropy_label d;
           Gui.last_charset := Gui.last_charset d;
           Gui.clipboard := join [newline] generated |},
        str_nat (List.length generated) ++ chars " passwords copied to clipboard.").
Proof.
  intros Hlines Hne. unfold Gui.copy_all. rewrite Hlines.
  unfold Gui.display_lines.
  rewrite (strip_all_lines _ (λ k, k + 1)%nat) by done. rewrite length_imap.
  by destruct generated.
Qed.

Lemma copy_all_recovers_passwords_witness :
  Gui.copy_all
    {| Gui.pw_listbox := Gui.display_lines [chars "a. b"; chars "c.d. "];
       Gui.entropy_label := None; Gui.last_charset := []; Gui.clipboard := [] |}
  = Ok ({| Gui.pw_listbox := Gui.display_lines [chars "a. b"; chars "c.d. "];
           Gui.entropy_label := None; Gui.last_charset := [];
           Gui.clipboard := join [newline] [chars "a. b"; chars "c.d. "] |},
        str_nat 2 ++ chars " passwords copied to clipboard.").
Proof.
  apply (copy_all_recovers_passwords [chars "a. b"; chars "c.d. "]
           {| Gui.pw_listbox := Gui.display_lines [chars "a. b"; chars "c.d. "];
              Gui.entropy_label := None; Gui.last_charset := []; Gui.clipboard := [] |}).
  - reflexivity.
  - done.
Defined.

(** X8. The rows that [save_to_file] hands to the CSV writer for the lines
    that [on_generate] wrote are the header and, for the [k]-th password, its
    number in two or more digits and the password itself. *)
Theorem csv_rows_of_generated (generated : list (list ascii)) :
  Gui.csv_rows (Gui.display_lines generated)
  = Ok ([chars "index"; chars "password"]
          :: imap (λ k pw, [format_02d (k + 1); pw]) generated).
Proof.
  unfold Gui.csv_rows, Gui.display_lines.
  by rewrite (csv_rows_of_lines _ (λ k, k + 1)%nat) by done.
Qed.

(** ** The form: [on_generate] and [update_entropy] *)

(** A loop that appends one result of [m] per iteration *)
Lemma returns_collect {A B} (m : M A) (P : A → Prop) (l : list B) (acc : list A) :
  returns m P →
  returns (for_each l (λ generated _, x ← m; mret (generated ++ [x])) acc)
    (λ r, ∃ extra, r = acc ++ extra ∧ List.length extra = List.length l ∧ Forall P extra).
Proof.
  intros Hm. revert acc. induction l as [|b l IH]; intros acc; simpl.
  - apply returns_ret. exists []. by rewrite app_nil_r.
  - eapply returns_bind.
    { eapply returns_bind; [exact Hm|].
      intros x Hx. apply (returns_ret _ (λ r, ∃ x, r = acc ++ [x] ∧ P x)).
      by exists x. }
    intros acc' (x & -> & Hx). eapply returns_weaken; [apply IH|].
    intros r (extra & -> & Hlen & Hextra). exists (x :: extra).
    rewrite <- app_assoc. simpl. split_and!; [done|by rewrite Hlen|by constructor].
Qed.

Lemma generate_returns_sound length charset require_each classes :
  charset ≠ [] → 1 ≤ length →
  (∀ cls, cls ∈ classes → cls.2 ⊆ charset) →
  Z.of_nat (List.length classes) ≤ length →
  returns (generate_single_password length charset require_each (Some classes))
    (sound_password length charset require_each classes).
Proof.
  intros Hne Hlen Hpools Hcount.
  assert (Z.of_nat (List.length (required_of (Some classes))) ≤ length) as Hreq.
  { unfold required_of. simpl. pose proof (length_filter (λ cls, cls.2 ≠ []) classes). lia. }
  eapply returns_weaken; [apply generate_returns; done|].
  intros pw (firsts & extra & Hperm & Hpwlen & Hextra & Hfirsts).
  split_and!; [done| |].
  - intros c Hc. rewrite Hperm in Hc. apply elem_of_app in Hc as [Hc|Hc]; [|auto].
    destruct (require_each && truthy (Some classes)).
    + apply list_elem_of_lookup in Hc as [i Hi].
      destruct (Forall2_lookup_r _ _ _ _ _ Hfirsts Hi) as (cls & Hcls & Hin).
      apply list_elem_of_lookup_2, elem_of_required_of in Hcls as [_ Hcls].
      by apply (Hpools cls Hcls).
    + subst firsts. by apply elem_of_nil in Hc.
  - intros -> cls Hcls Hpool.
    assert (cls ∈ required_of (Some classes)) as Hr by by apply elem_of_required_of.
    destruct classes as [|cls0 classes]; [by apply elem_of_nil in Hcls|].
    change (true && truthy (Some (cls0 :: classes))) with true in Hfirsts.
    cbv iota in Hfirsts.
    apply list_elem_of_lookup in Hr as [i Hi].
    destruct (Forall2_lookup_l _ _ _ _ _ Hfirsts Hi) as (c & Hc & Hcin).
    exists c. split; [done|]. rewrite Hperm. apply elem_of_app. left.
    by eapply list_elem_of_lookup_2.
Qed.

Lemma calculate_entropy_bits_returns (log2 : Z → spec_float) (charset_len length : Z) :
  length < 2 ^ 53 →
  ∃ bits, calculate_entropy_bits log2 charset_len length = Ok bits
          ∧ (charset_len ≤ 0 ∨ length ≤ 0 → bits = f0_0).
Proof.
  intros Hlen. unfold calculate_entropy_bits, int_mul_float.
  destruct (Z.leb_spec charset_len 0); [exists f0_0; by split|].
  destruct (Z.leb_spec length 0); [exists f0_0; by split|]. simpl.
  destruct (int_to_float_small length ltac:(lia)) as (m & e & ->).
  eexists. split; [done|]. lia.
Qed.

Section Form.
Import Gui.
Variable iter : gset ascii → list ascii.
Hypothesis iter_ok : set_iteration iter.
Variable log2 : Z → spec_float.
Implicit Types (cfg : settings) (d : display) (s : entropy).

Lemma elem_of_class_pool cfg pool c :
  c ∈ class_pool cfg pool
  ↔ c ∈ pool ∧ (avoid_ambiguous cfg = true → c ∉ AMBIGUOUS_CHARS).
Proof.
  unfold class_pool. destruct (avoid_ambiguous cfg).
  - rewrite list_elem_of_filter. unfold char_in.
    rewrite negb_true_iff, bool_decide_eq_false. intuition.
  - intuition congruence.
Qed.

(** An entry of [classes] is the filtered pool of a selected class. *)
Lemma elem_of_classes_of cfg cls :
  cls ∈ classes_of cfg ↔
  (use_lower cfg = true ∧ cls = ("lower"%string, class_pool cfg ascii_lowercase))
  ∨ (use_upper cfg = true ∧ cls = ("upper"%string, class_pool cfg ascii_uppercase))
  ∨ (use_digits cfg = true ∧ cls = ("digits"%string, class_pool cfg digits))
  ∨ (use_symbols cfg = true ∧ cls = ("symbols"%string, class_pool cfg SYMBOLS)).
Proof.
  unfold classes_of.
  destruct (use_lower cfg), (use_upper cfg), (use_digits cfg), (use_symbols cfg);
    cbv beta iota zeta;
    rewrite ?elem_of_app, ?elem_of_cons, ?elem_of_nil; intuition congruence.
Qed.

Lemma class_pool_nonempty cfg pool :
  pool ∈ [ascii_lowercase; ascii_uppercase; digits; SYMBOLS] →
  class_pool cfg pool ≠ [].
Proof.
  unfold class_pool. intros Hpool.
  repeat (apply elem_of_cons in Hpool as [->|Hpool]);
    [..|by apply elem_of_nil in Hpool];
    by destruct (avoid_ambiguous cfg); vm_compute.
Qed.

Lemma classes_of_length cfg : (List.length (classes_of cfg) ≤ 4)%nat.
Proof.
  unfold classes_of.
  destruct (use_lower cfg), (use_upper cfg), (use_digits cfg), (use_symbols cfg);
    simpl; lia.
Qed.

Lemma elem_of_charset_of cfg c :
  c ∈ charset_of iter cfg ↔ ∃ cls, cls ∈ classes_of cfg ∧ c ∈ cls.2.
Proof.
  unfold charset_of. rewrite (build_charset_members iter) by done.
  split.
  - intros [[[? ?]|[[? ?]|[[? ?]|[? ?]]]] Hamb];
      eexists (_, class_pool cfg _);
      (split; [apply elem_of_classes_of|apply elem_of_class_pool; split; eassumption]);
      [left|right; left|right; right; left|right; right; right]; by split.
  - intros (cls & Hcls & Hc).
    apply elem_of_classes_of in Hcls as [[? ->]|[[? ->]|[[? ->]|[? ->]]]];
      apply elem_of_class_pool in Hc as [? ?]; intuition.
Qed.

Lemma charset_of_nil_iff cfg :
  charset_of iter cfg = [] ↔
  use_lower cfg || use_upper cfg || use_digits cfg || use_symbols cfg = false.
Proof.
  unfold charset_of. rewrite (build_charset_nil_iff iter iter_ok).
  destruct (use_lower cfg), (use_upper cfg), (use_digits cfg), (use_symbols cfg);
    simpl; intuition congruence.
Qed.

End Form.

Section Batch.
Import Gui.
Variable iter : gset ascii → list ascii.
Hypothesis iter_ok : set_iteration iter.
Implicit Types (cfg : settings) (d : display) (s : entropy).

Lemma classes_of_pools cfg cls :
  cls ∈ classes_of cfg → cls.2 ≠ [] ∧ cls.2 ⊆ charset_of iter cfg.
Proof.
  intros Hcls. split.
  - apply elem_of_classes_of in Hcls as [[? ->]|[[? ->]|[[? ->]|[? ->]]]];
      apply class_pool_nonempty; set_solver.
  - intros c Hc. apply (elem_of_charset_of iter iter_ok). eauto.
Qed.

Lemma generate_batch_returns cfg :
  4 ≤ length_var cfg ≤ 256 → 1 ≤ count_var cfg ≤ 1000 →
  use_lower cfg || use_upper cfg || use_digits cfg || use_symbols cfg = true →
  returns (generate_batch iter cfg)
    (λ generated,
       Z.of_nat (List.length generated) = count_var cfg
       ∧ Forall (sound_password (length_var cfg) (charset_of iter cfg)
                   (require_each cfg) (classes_of cfg)) generated).
Proof.
  intros Hlen Hcount Hflags. unfold generate_batch.
  destruct (Z.ltb_spec (length_var cfg) 4); [lia|].
  destruct (Z.gtb_spec (length_var cfg) 256); [lia|].
  destruct (Z.ltb_spec (count_var cfg) 1); [lia|].
  destruct (Z.gtb_spec (count_var cfg) 1000); [lia|]. cbn [orb].
  assert (charset_of iter cfg ≠ []) as Hne.
  { rewrite (charset_of_nil_iff iter iter_ok). by rewrite Hflags. }
  rewrite bool_decide_false by done.
  eapply returns_weaken.
  { apply returns_collect. apply generate_returns_sound; [done|lia| |].
    - intros cls Hcls. by apply classes_of_pools.
    - pose proof (classes_of_length cfg). lia. }
  intros generated (extra & -> & Hextra & Hsound). simpl.
  split; [|done]. unfold range in Hextra. rewrite length_seq in Hextra. lia.
Qed.

End Batch.

(** X9. The classes that [on_generate] hands to the generator fit its
    alphabet: every pool is non-empty and part of the alphabet, the alphabet
    is the union of the pools, and there are at most four classes. *)
Theorem on_generate_classes_fit_alphabet
    (iter : gset ascii → list ascii) (cfg : Gui.settings) :
  set_iteration iter →
  (∀ cls, cls ∈ Gui.classes_of cfg →
          cls.2 ≠ [] ∧ cls.2 ⊆ Gui.charset_of iter cfg)
  ∧ (∀ c, c ∈ Gui.charset_of iter cfg
          ↔ ∃ cls, cls ∈ Gui.classes_of cfg ∧ c ∈ cls.2)
  ∧ (List.length (Gui.classes_of cfg) ≤ 4)%nat.
Proof.
  intros Hiter. split_and!.
  - intros cls. by apply classes_of_pools.
  - intros c. by apply elem_of_charset_of.
  - apply classes_of_length.
Qed.

Lemma on_generate_classes_fit_alphabet_witness :
  (∀ cls, cls ∈ Gui.classes_of
    {| Gui.length_var := 8; Gui.count_var := 2; Gui.use_lower := true;
       Gui.use_upper := false; Gui.use_digits := true; Gui.use_symbols := false;
       Gui.require_each := true; Gui.avoid_ambiguous := true |} →
          cls.2 ≠ []
          ∧ cls.2 ⊆ Gui.charset_of elements
    {| Gui.length_var := 8; Gui.count_var := 2; Gui.use_lower := true;
       Gui.use_upper := false; Gui.use_digits := true; Gui.use_symbols := false;
       Gui.require_each := true; Gui.avoid_ambiguous := true |})
  ∧ (∀ c, c ∈ Gui.charset_of elements
    {| Gui.length_var := 8; Gui.count_var := 2; Gui.use_lower := true;
       Gui.use_upper := false; Gui.use_digits := true; Gui.use_symbols := false;
       Gui.require_each := true; Gui.avoid_ambiguous := true |}
          ↔ ∃ cls, cls ∈ Gui.classes_of
    {| Gui.length_var := 8; Gui.count_var := 2; Gui.use_lower := true;
       Gui.use_upper := false; Gui.use_digits := true; Gui.use_symbols := false;
       Gui.require_each := true; Gui.avoid_ambiguous := true |} ∧ c ∈ cls.2)
  ∧ (List.length (Gui.classes_of
    {| Gui.length_var := 8; Gui.count_var := 2; Gui.use_lower := true;
       Gui.use_upper := false; Gui.use_digits := true; Gui.use_symbols := false;
       Gui.require_each := true; Gui.avoid_ambiguous := true |}) ≤ 4)%nat.
Proof.
  apply (on_generate_classes_fit_alphabet elements
    {| Gui.length_var := 8; Gui.count_var := 2; Gui.use_lower := true;
       Gui.use_upper := false; Gui.use_digits := true; Gui.use_symbols := false;
       Gui.require_each := true; Gui.avoid_ambiguous := true |}).
  intros X. reflexivity.
Defined.

(** X10. With a length from 4 to 256, a count from 1 to 1000 and at least
    one class selected, [on_generate] shows no error: the list box holds
    [count] numbered lines, every password has [length] characters of the
    alphabet and, with [require_each] set, a character of every selected
    class; the entropy label and [last_charset] are updated and the clipboard
    is left alone.  The too-short error of the generator cannot occur. *)
Theorem on_generate_success
    (iter : gset ascii → list ascii) (log2 : Z → spec_float)
    (cfg : Gui.settings) (d : Gui.display) (s : entropy) :
  set_iteration iter →
  4 ≤ Gui.length_var cfg ≤ 256 →
  1 ≤ Gui.count_var cfg ≤ 1000 →
  Gui.use_lower cfg || Gui.use_upper cfg || Gui.use_digits cfg || Gui.use_symbols cfg
  = true →
  ∃ generated bits s',
    Gui.on_generate iter log2 cfg d s
    = ({| Gui.pw_listbox := Gui.display_lines generated;
          Gui.entropy_label :=
            Some {| Gui.shown_bits := bits;
                    Gui.shown_label := strength_label (PyFloat bits);
                    Gui.shown_size := List.length (Gui.charset_of iter cfg) |};
          Gui.last_charset := Gui.charset_of iter cfg;
          Gui.clipboard := Gui.clipboard d |}, None, s')
    ∧ Z.of_nat (List.length generated) = Gui.count_var cfg
    ∧ Forall (λ pw,
                Z.of_nat (List.length pw) = Gui.length_var cfg
                ∧ (∀ c, c ∈ pw → c ∈ Gui.charset_of iter cfg)
                ∧ (Gui.require_each cfg = true →
                   ∀ cls, cls ∈ Gui.classes_of cfg → ∃ c, c ∈ cls.2 ∧ c ∈ pw))
        generated.
Proof.
  intros Hiter Hlen Hcount Hflags.
  destruct (generate_batch_returns iter Hiter cfg Hlen Hcount Hflags s)
    as (generated & s' & Hrun & Hn & Hsound).
  destruct (calculate_entropy_bits_returns log2
              (Z.of_nat (List.length (Gui.charset_of iter cfg)))
              (Z.max 0 (Gui.length_var cfg)) ltac:(lia))
    as (bits & Hbits & _).
  exists generated, bits, s'. split_and!; [|done|].
  - unfold Gui.on_generate. rewrite Hrun.
    unfold Gui.update_entropy. by rewrite Hbits.
  - eapply Forall_impl; [exact Hsound|].
    intros pw (Hpwlen & Hmem & Hcover). split_and!; [done..|].
    intros Hreq cls Hcls. apply (Hcover Hreq cls Hcls).
    by apply (classes_of_pools iter Hiter cfg cls).
Qed.

Lemma on_generate_success_witness :
  ∃ generated bits s',
    Gui.on_generate elements (λ _, f1_0)
      {| Gui.length_var := 4; Gui.count_var := 2; Gui.use_lower := true;
         Gui.use_upper := false; Gui.use_digits := true; Gui.use_symbols := false;
         Gui.require_each := true; Gui.avoid_ambiguous := true |}
      {| Gui.pw_listbox := []; Gui.entropy_label := None; Gui.last_charset := [];
         Gui.clipboard := [] |} (λ i, i)
    = ({| Gui.pw_listbox := Gui.display_lines generated;
          Gui.entropy_label :=
            Some {| Gui.shown_bits := bits;
                    Gui.shown_label := strength_label (PyFloat bits);
                    Gui.shown_size :=
                      List.length (build_charset elements true false true false true) |};
          Gui.last_charset := build_charset elements true false true false true;
          Gui.clipboard := [] |}, None, s')
    ∧ Z.of_nat (List.length generated) = 2
    ∧ Forall (λ pw,
                Z.of_nat (List.length pw) = 4
                ∧ (∀ c, c ∈ pw → c ∈ build_charset elements true false true false true)
                ∧ (true = true →
                   ∀ cls, cls ∈ Gui.classes_of
                                  {| Gui.length_var := 4; Gui.count_var := 2;
                                     Gui.use_lower := true; Gui.use_upper := false;
                                     Gui.use_digits := true; Gui.use_symbols := false;
                                     Gui.require_each := true;
                                     Gui.avoid_ambiguous := true |} →
                          ∃ c, c ∈ cls.2 ∧ c ∈ pw))
        generated.
Proof.
  apply (on_generate_success elements (λ _, f1_0)
           {| Gui.length_var := 4; Gui.count_var := 2; Gui.use_lower := true;
              Gui.use_upper := false; Gui.use_digits := true; Gui.use_symbols := false;
              Gui.require_each := true; Gui.avoid_ambiguous := true |}
           {| Gui.pw_listbox := []; Gui.entropy_label := None; Gui.last_charset := [];
              Gui.clipboard := [] |} (λ i, i)).
  - intros X. reflexivity.
  - simpl. lia.
  - simpl. lia.
  - reflexivity.
Defined.



(** X12. For a length below [2 ** 53], [update_entropy] does not raise: it
    shows the entropy of the alphabet of the selected classes and of the
    length, not below 0, with its label and the size of the alphabet, and
    stores the alphabet.  With no class selected, or a length of at most 0,
    it shows 0.0 and "Very Weak". *)
Theorem update_entropy_shows
    (iter : gset ascii → list ascii) (log2 : Z → spec_float)
    (cfg : Gui.settings) (d : Gui.display) :
  set_iteration iter →
  Gui.length_var cfg < 2 ^ 53 →
  ∃ bits,
    Gui.update_entropy iter log2 cfg d
    = Ok {| Gui.pw_listbox := Gui.pw_listbox d;
            Gui.entropy_label :=
              Some {| Gui.shown_bits := bits;
                      Gui.shown_label := strength_label (PyFloat bits);
                      Gui.shown_size := List.length (Gui.charset_of iter cfg) |};
            Gui.last_charset := Gui.charset_of iter cfg;
            Gui.clipboard := Gui.clipboard d |}
    ∧ calculate_entropy_bits log2 (Z.of_nat (List.length (Gui.charset_of iter cfg)))
        (Z.max 0 (Gui.length_var cfg)) = Ok bits
    ∧ (Gui.use_lower cfg || Gui.use_upper cfg || Gui.use_digits cfg
       || Gui.use_symbols cfg = false
       ∨ Gui.length_var cfg ≤ 0 →
       bits = f0_0 ∧ strength_label (PyFloat bits) = "Very Weak"%string).
Proof.
  intros Hiter Hlen.
  destruct (calculate_entropy_bits_returns log2
              (Z.of_nat (List.length (Gui.charset_of iter cfg)))
              (Z.max 0 (Gui.length_var cfg)) ltac:(lia))
    as (bits & Hbits & Hzero).
  exists bits. split_and!; [|done|].
  - unfold Gui.update_entropy. by rewrite Hbits.
  - intros Hdegenerate.
    assert (bits = f0_0) as ->; [|done].
    apply Hzero. destruct Hdegenerate as [Hflags|Hnonpos]; [left|right; lia].
    apply (charset_of_nil_iff iter Hiter) in Hflags. by rewrite Hflags.
Qed.

Lemma update_entropy_shows_witness :
  ∃ bits,
    Gui.update_entropy elements (λ _, f1_0)
      {| Gui.length_var := 0; Gui.count_var := 2; Gui.use_lower := true;
         Gui.use_upper := false; Gui.use_digits := false; Gui.use_symbols := false;
         Gui.require_each := true; Gui.avoid_ambiguous := false |}
      {| Gui.pw_listbox := []; Gui.entropy_label := None; Gui.last_charset := [];
         Gui.clipboard := [] |}
    = Ok {| Gui.pw_listbox := [];
            Gui.entropy_label :=
              Some {| Gui.shown_bits := bits;
                      Gui.shown_label := strength_label (PyFloat bits);
                      Gui.shown_size :=
                        List.length (build_charset elements true false false false false) |};
            Gui.last_charset := build_charset elements true false false false false;
            Gui.clipboard := [] |}
    ∧ calculate_entropy_bits (λ _, f1_0)
        (Z.of_nat (List.length (build_charset elements true false false false false)))
        (Z.max 0 0) = Ok bits
    ∧ (true || false || false || false = false ∨ 0 ≤ 0 →
       bits = f0_0 ∧ strength_label (PyFloat bits) = "Very Weak"%string).
Proof.
  apply (update_entropy_shows elements (λ _, f1_0)
           {| Gui.length_var := 0; Gui.count_var := 2; Gui.use_lower := true;
              Gui.use_upper := false; Gui.use_digits := false; Gui.use_symbols := false;
              Gui.require_each := true; Gui.avoid_ambiguous := false |}
           {| Gui.pw_listbox := []; Gui.entropy_label := None; Gui.last_charset := [];
              Gui.clipboard := [] |}).
  - intros X. reflexivity.
  - simpl. lia.
Defined.

(** ** The labels, read backwards *)

Lemma py_lt_false_ge (a : number) (k : Z) :
  value a ≠ XNaN → py_lt a (PyInt k) = false → py_ge a (PyInt k) = true.
Proof.
  unfold py_ge, py_le, py_lt.
  rewrite (xcompare_antisym (value a) (value (PyInt k))). simpl.
  destruct (value a) as [| |q|]; simpl; try done.
  by destruct (Qcompare q (inject_Z k)).
Qed.

Lemma py_ge_negb_lt (a : number) (k : Z) :
  value a ≠ XNaN → py_ge a (PyInt k) = negb (py_lt a (PyInt k)).
Proof.
  intros Hnum. destruct (py_lt a (PyInt k)) eqn:Hlt; simpl.
  - destruct (py_ge a (PyInt k)) eqn:Hge; [|done].
    apply py_ge_not_lt in Hge. congruence.
  - by apply py_lt_false_ge.
Qed.

Lemma py_nan_compare (a : number) (k : Z) :
  value a = XNaN → py_lt a (PyInt k) = false ∧ py_ge a (PyInt k) = false.
Proof. unfold py_ge, py_le, py_lt. intros ->. done. Qed.

(** X13. The label tells the band, except for "Very Strong": the label is
    "Very Weak" exactly below 28, "Weak" exactly from 28 and below 36,
    "Reasonable" exactly from 36 and below 60, "Strong" exactly from 60 and
    below 80, and "Very Strong" exactly from 80 or for a NaN, which is below
    nothing. *)
Theorem strength_label_exact (bits : number) :
  (strength_label bits = "Very Weak"%string ↔ py_lt bits (PyInt 28) = true)
  ∧ (strength_label bits = "Weak"%string
     ↔ py_ge bits (PyInt 28) = true ∧ py_lt bits (PyInt 36) = true)
  ∧ (strength_label bits = "Reasonable"%string
     ↔ py_ge bits (PyInt 36) = true ∧ py_lt bits (PyInt 60) = true)
  ∧ (strength_label bits = "Strong"%string
     ↔ py_ge bits (PyInt 60) = true ∧ py_lt bits (PyInt 80) = true)
  ∧ (strength_label bits = "Very Strong"%string
     ↔ py_ge bits (PyInt 80) = true ∨ value bits = XNaN).
Proof.
  assert (value bits = XNaN ∨ value bits ≠ XNaN) as [Hnan|Hnum]
    by (destruct (value bits); auto).
  { unfold strength_label.
    destruct (py_nan_compare bits 28 Hnan) as [-> ->].
    destruct (py_nan_compare bits 36 Hnan) as [-> ->].
    destruct (py_nan_compare bits 60 Hnan) as [-> ->].
    destruct (py_nan_compare bits 80 Hnan) as [-> ->].
    split_and!; split; try done; try (by intros [? ?]); by right. }
  rewrite !(py_ge_negb_lt bits) by done.
  pose proof (py_lt_le_int bits 28 36) as M1.
  pose proof (py_lt_le_int bits 36 60) as M2.
  pose proof (py_lt_le_int bits 60 80) as M3.
  unfold strength_label.
  destruct (py_lt bits (PyInt 28)), (py_lt bits (PyInt 36)), (py_lt bits (PyInt 60)),
    (py_lt bits (PyInt 80));
    first
      [ exfalso;
        repeat match goal with
               | H : true = true → _ |- _ => specialize (H eq_refl)
               | H : (_ ≤ _) → _ |- _ => specialize (H ltac:(lia))
               end;
        congruence
      | simpl; intuition congruence ].
Qed.
